(** * sigua.io: the three page controllers

    A shallow embedding of [static/js/download.js], [static/js/spa.js] and
    [static/js/navigation.js].  Each controller is a class whose methods
    mutate the page; a method is embedded as a function in a small
    state-and-completion monad over the part of the page that the controller
    touches. *)

From stdpp Require Import base option list gmap strings pretty.
From Stdlib Require Import ZArith Ascii.

Open Scope Z_scope.
Open Scope string_scope.

(** ** JavaScript values, as far as the controllers inspect them *)

Module Js.

(** A value produced by [response.json()], by a property read or by a
    literal.  Numbers are kept by their integer value: the scripts only test
    them for truthiness and pass them on. *)
#[warnings="-register-all"]
Inductive JsValue : Type :=
| JUndefined
| JNull
| JBool (b : bool)
| JNum (n : Z)
| JStr (s : string)
| JArr (items : list JsValue)
| JObj (props : list (string * JsValue)).

(** What the scripts throw, or have thrown at them. *)
Inductive JsError : Type :=
| Error (message : string)        (* [new Error(message)] *)
| TypeError (message : string)    (* property read on null or undefined *)
| SyntaxError                     (* [response.json()] on a body that is not JSON *)
| NetworkError.                   (* [fetch] rejected, or the body broke off *)

(** ToBoolean. *)
Definition truthy (v : JsValue) : bool :=
  match v with
  | JUndefined | JNull => false
  | JBool b => b
  | JNum n => negb (Z.eqb n 0)
  | JStr s => negb (String.eqb s "")
  | JArr _ | JObj _ => true
  end.

(** The own properties of a parsed object, first binding of a key. *)
Fixpoint own (key : string) (props : list (string * JsValue)) : option JsValue :=
  match props with
  | [] => None
  | (k, v) :: rest => if String.eqb k key then Some v else own key rest
  end.

(** [v.key] for the keys the scripts read ([webhost], [go], [code], [msg],
    [section]): none of them is inherited from a prototype, so the read is
    the own property, or [undefined]; on [null] and [undefined] it throws. *)
Definition get (v : JsValue) (key : string) : JsError + JsValue :=
  match v with
  | JUndefined => inl (TypeError "Cannot read properties of undefined")
  | JNull => inl (TypeError "Cannot read properties of null")
  | JObj props => inr (default JUndefined (own key props))
  | _ => inr JUndefined
  end.

(** ToString of a parsed value, as an assignment to [href] applies it,
    completes unless it meets an object with an own [toString] property: a
    parsed value is never callable, so that property hides
    [Object.prototype.toString], and [valueOf] returns the object itself.  An
    array is joined, which converts each of its items. *)
Fixpoint converts (v : JsValue) : bool :=
  match v with
  | JObj props => negb (bool_decide (is_Some (own "toString" props)))
  | JArr items => forallb converts items
  | _ => true
  end.

(** [key in v] for a parsed object: the field is present, whatever it holds. *)
Definition has_field (v : JsValue) (key : string) : bool :=
  match v with
  | JObj props => bool_decide (is_Some (own key props))
  | _ => false
  end.

End Js.

(** ** Completions and the effect monad *)

Module Eff.
Import Js.

(** How a (possibly asynchronous) method invocation ends: it returns, it
    throws (an [async] method rejects), or it is still suspended at an
    [await] whose promise never settles. *)
Inductive Completion (A : Type) : Type :=
| Normal (a : A)
| Throw (e : JsError)
| Pending.
Arguments Normal {A} a.
Arguments Throw {A} e.
Arguments Pending {A}.

(** A method over a page state [W].  The state reached is returned for every
    completion: JavaScript does not roll mutations back on a throw. *)
Definition Eff (W A : Type) : Type := W → Completion A * W.

Definition ret {W A} (a : A) : Eff W A := λ w, (Normal a, w).

Definition bind {W A B} (m : Eff W A) (k : A → Eff W B) : Eff W B :=
  λ w, match m w with
       | (Normal a, w') => k a w'
       | (Throw e, w') => (Throw e, w')
       | (Pending, w') => (Pending, w')
       end.

Definition throw {W A} (e : JsError) : Eff W A := λ w, (Throw e, w).

(** An [await] on a promise that never settles. *)
Definition never {W A} : Eff W A := λ w, (Pending, w).

(** A statement that only mutates the page. *)
Definition modify {W} (f : W → W) : Eff W unit := λ w, (Normal tt, f w).

(** Lift a fallible pure computation. *)
Definition lift {W A} (r : JsError + A) : Eff W A :=
  match r with inl e => throw e | inr a => ret a end.

(** [try { body } catch (error) { handler } finally { final }].  A body that
    is suspended for ever never reaches its handler nor its finaliser; a
    finaliser that throws replaces the completion of what ran before it. *)
Definition try_catch_finally {W A}
    (body : Eff W A) (handler : JsError → Eff W A) (final : Eff W unit) : Eff W A :=
  λ w,
    let guarded :=
      match body w with
      | (Throw e, w1) => handler e w1
      | other => other
      end in
    match guarded with
    | (Pending, w2) => (Pending, w2)
    | (c, w2) =>
        match final w2 with
        | (Normal _, w3) => (c, w3)
        | (Throw e, w3) => (Throw e, w3)
        | (Pending, w3) => (Pending, w3)
        end
    end.

Declare Scope eff_scope.
Delimit Scope eff_scope with eff.
Notation "x ← m ; k" := (bind m (λ x, k))
  (at level 20, m at level 100, k at level 200, only parsing) : eff_scope.
Notation "m ;; k" := (bind m (λ _, k))
  (at level 100, k at level 200, right associativity, only parsing) : eff_scope.


Definition settled {A} (c : Completion A) : bool :=
  match c with Pending => false | _ => true end.

End Eff.

(** ** The page: elements, class lists, inline styles *)

Module Dom.

(** An element, with what the scripts read or write of it.  [style] is the
    inline style declaration, a map from property name to value. *)
Record Element : Type := mkElement {
  el_id : string;
  classList : list string;
  attributes : gmap string string;
  style : gmap string string
}.

Definition contains (c : string) (cl : list string) : bool :=
  bool_decide (c ∈ cl).

(** [classList.add]: the token is appended unless it is there already. *)
Definition add (c : string) (cl : list string) : list string :=
  if contains c cl then cl else cl ++ [c].

(** [classList.remove]. *)
Definition remove (c : string) (cl : list string) : list string :=
  filter (λ x, x ≠ c) cl.

Definition has_class (c : string) (e : Element) : bool :=
  contains c (classList e).

Definition add_class (c : string) (e : Element) : Element :=
  mkElement (el_id e) (add c (classList e)) (attributes e) (style e).

Definition remove_class (c : string) (e : Element) : Element :=
  mkElement (el_id e) (remove c (classList e)) (attributes e) (style e).

(** [e.style.prop = value]. *)
Definition set_style (prop value : string) (e : Element) : Element :=
  mkElement (el_id e) (classList e) (attributes e) (<[prop := value]> (style e)).

(** A document is its elements in tree order.  [querySelectorAll(sel)
    .forEach(f)] rewrites every element the selector matches. *)
Definition for_each (sel : Element → bool) (f : Element → Element)
    (doc : list Element) : list Element :=
  (λ e, if sel e then f e else e) <$> doc.

(** Index of the first element a selector matches: [querySelector],
    [getElementById]. *)
Fixpoint find_index (sel : Element → bool) (doc : list Element) : option nat :=
  match doc with
  | [] => None
  | e :: rest => if sel e then Some 0%nat else S <$> find_index sel rest
  end.

Definition by_id (id : string) (e : Element) : bool :=
  bool_decide (el_id e = id).

Definition by_attr (name value : string) (e : Element) : bool :=
  bool_decide (attributes e !! name = Some value).

End Dom.

(** ** download.js: the download manager *)

Module Download.
Import Js Eff Dom.
Local Open Scope eff_scope.

(** *** URLSearchParams *)

Definition code_in (lo hi : N) (c : ascii) : bool :=
  ((lo <=? N_of_ascii c) && (N_of_ascii c <=? hi))%N.

Definition is_alnum (c : ascii) : bool :=
  code_in 48 57 c || code_in 65 90 c || code_in 97 122 c.

(** Bytes that the application/x-www-form-urlencoded serializer leaves as
    they are. *)
Definition form_safe (c : ascii) : bool :=
  is_alnum c || bool_decide (c ∈ ["*"; "-"; "."; "_"]%char).

Definition hex_digit (n : N) : ascii :=
  default "0"%char (String.get (N.to_nat n) "0123456789ABCDEF").

Definition form_byte (c : ascii) : string :=
  if form_safe c then String c ""
  else if bool_decide (c = " "%char) then "+"
  else String "%" (String (hex_digit (N_of_ascii c / 16))
                     (String (hex_digit (N_of_ascii c mod 16)) "")).

(** Serialization of a string, given as its UTF-8 bytes. *)
Fixpoint form_encode (s : string) : string :=
  match s with
  | "" => ""
  | String c rest => form_byte c ++ form_encode rest
  end.

(** [String(new URLSearchParams({...}))]: the pairs in insertion order. *)
Fixpoint URLSearchParams_toString (params : list (string * string)) : string :=
  match params with
  | [] => ""
  | [(k, v)] => form_encode k ++ "=" ++ form_encode v
  | (k, v) :: rest =>
      form_encode k ++ "=" ++ form_encode v ++ "&" ++ URLSearchParams_toString rest
  end.

(** The parser of the same format, as the receiving end applies it to a
    query string: split at "&", skip empty pieces, cut each piece at its
    first "=", decode "+" and percent escapes. *)
Definition unhex (c : ascii) : option N :=
  if code_in 48 57 c then Some (N_of_ascii c - 48)%N
  else if code_in 65 70 c then Some (N_of_ascii c - 55)%N
  else if code_in 97 102 c then Some (N_of_ascii c - 87)%N
  else None.

Fixpoint form_decode (s : string) : string :=
  match s with
  | "" => ""
  | String c rest =>
      if bool_decide (c = "+"%char) then String " " (form_decode rest)
      else if bool_decide (c = "%"%char) then
        match rest with
        | String h (String l rest') =>
            match unhex h, unhex l with
            | Some a, Some b => String (ascii_of_N (16 * a + b)) (form_decode rest')
            | _, _ => String c (form_decode rest)
            end
        | _ => String c (form_decode rest)
        end
      else String c (form_decode rest)
  end.

(** The first piece of [s] and the pieces after it. *)
Fixpoint pieces (sep : ascii) (s : string) : string * list string :=
  match s with
  | "" => ("", [])
  | String c rest =>
      if bool_decide (c = sep)
      then ("", (pieces sep rest).1 :: (pieces sep rest).2)
      else (String c (pieces sep rest).1, (pieces sep rest).2)
  end.

Fixpoint cut (sep : ascii) (s : string) : string * string :=
  match s with
  | "" => ("", "")
  | String c rest =>
      if bool_decide (c = sep) then ("", rest)
      else (String c (cut sep rest).1, (cut sep rest).2)
  end.

Definition parse_query (q : string) : list (string * string) :=
  (λ piece, (form_decode (cut "=" piece).1, form_decode (cut "=" piece).2))
    <$> filter (λ piece, piece ≠ "") ((pieces "&" q).1 :: (pieces "&" q).2).

(** *** The regular expression of [detectDeviceType] *)

Definition lower (c : ascii) : ascii :=
  if code_in 65 90 c then ascii_of_N (N_of_ascii c + 32) else c.

(** [p], in lower case, is a prefix of [s] up to the case of ASCII letters. *)
Fixpoint prefix_ci (p s : string) : bool :=
  match p, s with
  | "", _ => true
  | String a p', String b s' => bool_decide (a = lower b) && prefix_ci p' s'
  | String _ _, "" => false
  end.

(** [/p/i.test(s)] for a literal [p] given in lower case. *)
Fixpoint test_ci (p s : string) : bool :=
  prefix_ci p s ||
  match s with
  | "" => false
  | String _ s' => test_ci p s'
  end.

(** *** The page as the download manager sees it *)

(** A notification element appended to the body: the message interpolated
    into its markup, the [type] of its class name and colour, its current
    animation and whether it is still attached. *)
Record Notification : Type := mkNotification {
  message : JsValue;
  kind : string;
  animation : string;
  attached : bool
}.

(** Callbacks handed to [setTimeout], by the notification they act on. *)
Inductive TimerAction : Type :=
| RemoveNotification (n : nat)
| DetachNotification (n : nat).

Record World : Type := mkWorld {
  document : list Element;              (* elements in tree order *)
  body : list Notification;             (* notifications appended to the body *)
  timers : list (Z * TimerAction);      (* [setTimeout] calls: delay, callback *)
  requests : list JsValue;              (* arguments of [fetch], oldest first *)
  clicked : list JsValue;               (* [href] of each synthesized anchor clicked *)
  console : list JsError                (* [console.error] *)
}.

Definition set_document (f : list Element → list Element) (w : World) : World :=
  mkWorld (f (document w)) (body w) (timers w) (requests w) (clicked w) (console w).

Definition set_body (f : list Notification → list Notification) (w : World) : World :=
  mkWorld (document w) (f (body w)) (timers w) (requests w) (clicked w) (console w).

Definition add_timer (delay : Z) (a : TimerAction) (w : World) : World :=
  mkWorld (document w) (body w) (timers w ++ [(delay, a)]) (requests w) (clicked w)
          (console w).

Definition add_request (input : JsValue) (w : World) : World :=
  mkWorld (document w) (body w) (timers w) (requests w ++ [input]) (clicked w)
          (console w).

Definition add_click (href : JsValue) (w : World) : World :=
  mkWorld (document w) (body w) (timers w) (requests w) (clicked w ++ [href])
          (console w).

Definition add_console (e : JsError) (w : World) : World :=
  mkWorld (document w) (body w) (timers w) (requests w) (clicked w)
          (console w ++ [e]).

(** *** The network and the browser *)

(** What reading a body does when it does not yield a value: the text is
    not JSON, the connection breaks while the body is read, or the body never
    ends. *)
Inductive BodyFault : Type :=
| Malformed
| Interrupted
| Unending.

(** A response: its status, the value its body parses to when it arrives in
    full and is JSON, and what reading it does otherwise. *)
Record Response : Type := mkResponse {
  status : Z;
  json_body : option JsValue;
  body_fault : BodyFault         (* consulted when [json_body] is [None] *)
}.

(** [response.ok]. *)
Definition ok (r : Response) : bool :=
  ((200 <=? status r) && (status r <=? 299))%Z.

(** What a [fetch] promise does: it resolves with a response, rejects, or
    never settles (no timeout is set). *)
Inductive FetchOutcome : Type :=
| Resolved (r : Response)
| Rejected
| Hung.

(** What becomes of a message interpolated into the markup of a
    notification: its conversion to a string throws (an object whose own
    [toString] is not callable), or the parsed markup no longer holds a
    [.notification__close] element (the message opened an element that
    swallowed it), or it still does. *)
Inductive Rendering : Type :=
| Unprintable
| NoButton
| WithButton.

(** The surroundings of a flow: [window.location.hostname],
    [navigator.userAgent], the outcome of the [n]-th [fetch] of the flow
    (counted from 0) for the input it was given, and the string conversion
    and HTML parser applied to a message. *)
Record Env : Type := mkEnv {
  hostname : string;
  userAgent : string;
  net : nat → JsValue → FetchOutcome;
  render : JsValue → Rendering
}.

(** A primitive message whose text has no "<": it converts to a string and
    parses to text alone, whatever the parser. *)
Definition plain (msg : JsValue) : bool :=
  match msg with
  | JStr s => negb (test_ci "<" s)
  | JArr _ | JObj _ => false
  | _ => true
  end.

Definition apiBaseUrl : string := "https://a.hkdownload.com/get.php".

Section Manager.
Context (env : Env).

Definition fetch (input : JsValue) : Eff World Response :=
  λ w,
    let w' := add_request input w in
    match net env (length (requests w)) input with
    | Resolved r => (Normal r, w')
    | Rejected => (Throw NetworkError, w')
    | Hung => (Pending, w')
    end.

(** [await response.json()]. *)
Definition json (r : Response) : Eff World JsValue :=
  match json_body r with
  | Some v => ret v
  | None =>
      match body_fault r with
      | Malformed => throw SyntaxError
      | Interrupted => throw NetworkError
      | Unending => never
      end
  end.

(** [a && b], with [b] evaluated only when [a] is truthy. *)
Definition js_and (a : JsError + JsValue) (b : JsError + JsValue) : JsError + JsValue :=
  match a with
  | inl e => inl e
  | inr va => if truthy va then b else inr va
  end.

(** The notification is given by its position in the body; where none
    sits, [notification] is [undefined] and reading its [style] throws. *)
Definition removeNotification (n : nat) : Eff World unit :=
  λ w,
    match body w !! n with
    | None => throw (TypeError "Cannot read properties of undefined") w
    | Some _ =>
        (modify (set_body (alter (λ x,
            mkNotification (message x) (kind x) "slideOutRight 0.3s ease-in"
                           (attached x)) n)) ;;
         modify (add_timer 300 (DetachNotification n))) w
    end.

Definition rendering (msg : JsValue) : Rendering :=
  if plain msg then WithButton else render env msg.

(** The template literal is evaluated first; the element is appended and its
    timer set before [querySelector('.notification__close')] is asked for the
    button. *)
Definition showNotification (msg : JsValue) (type : string) : Eff World unit :=
  λ w,
    match rendering msg with
    | Unprintable => throw (TypeError "Cannot convert object to primitive value") w
    | found =>
        let n := length (body w) in
        (modify (set_body (λ b,
            (b ++ [mkNotification msg type "slideInRight 0.3s ease-out" true])%list)) ;;
         modify (add_timer 5000 (RemoveNotification n)) ;;
         match found with
         | WithButton => ret tt
         | _ => throw (TypeError "Cannot read properties of null")
         end) w
    end.

(** The callback of the inner [setTimeout] of [removeNotification]: the
    notification leaves the page if it is still in it. *)
Definition detach (n : nat) : Eff World unit :=
  λ w,
    match body w !! n with
    | None => throw (TypeError "Cannot read properties of undefined") w
    | Some _ =>
        modify (set_body (alter (λ x,
            mkNotification (message x) (kind x) (animation x) false) n)) w
    end.

(** A timer fires. *)
Definition run_timer (a : TimerAction) : Eff World unit :=
  match a with
  | RemoveNotification n => removeNotification n
  | DetachNotification n => detach n
  end.

(** The click listener of the close button of the [n]-th notification. *)
Definition onCloseClick (n : nat) : Eff World unit :=
  removeNotification n.

Definition showError (msg : JsValue) : Eff World unit :=
  showNotification msg "error".

Definition showSuccess (msg : JsValue) : Eff World unit :=
  showNotification msg "success".

Definition showLoadingState : Eff World unit :=
  modify (set_document (for_each (has_class "download-btn")
    (λ button, set_style "pointerEvents" "none" (set_style "opacity" "0.6" button)))).

Definition hideLoadingState : Eff World unit :=
  modify (set_document (for_each (has_class "download-btn")
    (λ button, set_style "pointerEvents" "auto" (set_style "opacity" "1" button)))).

(** [link.href = url] converts [url] to a string before the anchor is
    appended and clicked. *)
Definition downloadFile (url : JsValue) : Eff World unit :=
  if converts url
  then modify (add_click url) ;;
       showSuccess (JStr "下载已开始")
  else throw (TypeError "Cannot convert object to primitive value").

Definition detectDeviceType : string :=
  if test_ci "mobile" (userAgent env) || test_ci "android" (userAgent env)
     || test_ci "iphone" (userAgent env) || test_ci "ipad" (userAgent env)
  then "mobile" else "pc".

Definition getDownloadUrl (deviceType : string) : Eff World JsValue :=
  let siteDomain := hostname env in
  let params := URLSearchParams_toString [("type", deviceType); ("site", siteDomain)] in
  response1 ← fetch (JStr (apiBaseUrl ++ "?" ++ params));
  if negb (ok response1)
  then throw (Error ("HTTP error! status: " ++ pretty (status response1)))
  else
    data1 ← json response1;
    webhost ← lift (get data1 "webhost");
    if negb (truthy webhost)
    then
      both ← lift (js_and (get data1 "code") (get data1 "msg"));
      if truthy both
      then (msg ← lift (get data1 "msg"); showError msg ;; ret JNull)
      else throw (Error "未获取到有效的下载地址")
    else
      response2 ← fetch webhost;
      if negb (ok response2)
      then throw (Error ("HTTP error! status: " ++ pretty (status response2)))
      else
        data2 ← json response2;
        go ← lift (get data2 "go");
        if negb (truthy go)
        then
          both ← lift (js_and (get data2 "code") (get data2 "msg"));
          if truthy both
          then (msg ← lift (get data2 "msg"); showError msg ;; ret JNull)
          else throw (Error "未获取到最终下载地址")
        else ret go.

Definition handleDownload (deviceType : string) : Eff World unit :=
  try_catch_finally
    (showLoadingState ;;
     downloadUrl ← getDownloadUrl deviceType;
     if truthy downloadUrl then downloadFile downloadUrl else ret tt)
    (λ error,
       modify (add_console error) ;;
       showError (JStr "下载繁忙，错误代码:500"))
    hideLoadingState.

Definition handleOriginalDownload : Eff World unit :=
  try_catch_finally
    (showLoadingState ;;
     let deviceType := detectDeviceType in
     downloadUrl ← getDownloadUrl deviceType;
     if truthy downloadUrl then downloadFile downloadUrl else ret tt)
    (λ error,
       modify (add_console error) ;;
       showError (JStr "抱歉，网站过期啦，赶紧续费"))
    hideLoadingState.

(** The document-level click listener of [bindEvents]; the click is given
    by what [e.target.closest] finds for each of the three selectors. *)
Record Click : Type := mkClick {
  in_pc : bool;          (* [.download-btn--pc] *)
  in_mobile : bool;      (* [.download-btn--mobile] *)
  in_getDown : bool      (* [.getDown] *)
}.

Definition onClick (e : Click) : Eff World unit :=
  if in_pc e then handleDownload "pc"
  else if in_mobile e then handleDownload "mobile"
  else if in_getDown e then handleOriginalDownload
  else ret tt.

End Manager.

(** *** What a flow leaves behind *)

(** The page after [showLoadingState], after [hideLoadingState] and after
    [showNotification]. *)
Definition loading (w : World) : World :=
  set_document (for_each (has_class "download-btn")
    (λ button, set_style "pointerEvents" "none" (set_style "opacity" "0.6" button))) w.

Definition restored (w : World) : World :=
  set_document (for_each (has_class "download-btn")
    (λ button, set_style "pointerEvents" "auto" (set_style "opacity" "1" button))) w.

Definition note (msg : JsValue) (type : string) : Notification :=
  mkNotification msg type "slideInRight 0.3s ease-out" true.

Definition notified (msg : JsValue) (type : string) (w : World) : World :=
  add_timer 5000 (RemoveNotification (length (body w)))
    (set_body (λ b, (b ++ [note msg type])%list) w).



(** The two messages of the [catch] blocks. *)
Definition busy_500 : JsValue := JStr "下载繁忙，错误代码:500".
Definition site_expired : JsValue := JStr "抱歉，网站过期啦，赶紧续费".

(** The argument of the first [fetch]. *)
Definition hop1_url (env : Env) (deviceType : string) : JsValue :=
  JStr (apiBaseUrl ++ "?" ++
        URLSearchParams_toString [("type", deviceType); ("site", hostname env)]).

(** One hop as a single result: still suspended, failed with what is thrown,
    refused by the server with its message, or resolved to the value of the
    expected field. *)
Inductive Hop : Type :=
| Suspended
| Failed (e : JsError)
| Signaled (msg : JsValue)
| Found (v : JsValue).

Definition hop (field missing : string) (o : FetchOutcome) : Hop :=
  match o with
  | Hung => Suspended
  | Rejected => Failed NetworkError
  | Resolved r =>
      if ok r then
        match json_body r with
        | None =>
            match body_fault r with
            | Malformed => Failed SyntaxError
            | Interrupted => Failed NetworkError
            | Unending => Suspended
            end
        | Some data =>
            match get data field with
            | inl e => Failed e
            | inr v =>
                if truthy v then Found v
                else match js_and (get data "code") (get data "msg") with
                     | inl e => Failed e
                     | inr both =>
                         if truthy both
                         then match get data "msg" with
                              | inl e => Failed e
                              | inr msg => Signaled msg
                              end
                         else Failed (Error missing)
                     end
            end
        end
      else Failed (Error ("HTTP error! status: " ++ pretty (status r)))
  end.

(** How [showNotification] completes, with the value returned after it,
    and the page it leaves. *)
Definition announced {A} (env : Env) (msg : JsValue) (a : A) : Completion A :=
  match rendering env msg with
  | Unprintable => Throw (TypeError "Cannot convert object to primitive value")
  | NoButton => Throw (TypeError "Cannot read properties of null")
  | WithButton => Normal a
  end.

Definition posted (env : Env) (msg : JsValue) (type : string) (w : World) : World :=
  match rendering env msg with
  | Unprintable => w
  | _ => notified msg type w
  end.

(** The two hops composed. *)
Definition resolve (env : Env) (deviceType : string) (w : World)
    : Completion JsValue * World :=
  let w1 := add_request (hop1_url env deviceType) w in
  match hop "webhost" "未获取到有效的下载地址"
            (net env (length (requests w)) (hop1_url env deviceType)) with
  | Suspended => (Pending, w1)
  | Failed e => (Throw e, w1)
  | Signaled msg => (announced env msg JNull, posted env msg "error" w1)
  | Found webhost =>
      let w2 := add_request webhost w1 in
      match hop "go" "未获取到最终下载地址" (net env (length (requests w1)) webhost) with
      | Suspended => (Pending, w2)
      | Failed e => (Throw e, w2)
      | Signaled msg => (announced env msg JNull, posted env msg "error" w2)
      | Found go => (Normal go, w2)
      end
  end.

(** A flow around the resolution: the shape shared by both entry points. *)
Definition flow (generic : JsValue) (env : Env) (deviceType : string) (w : World)
    : Completion unit * World :=
  match resolve env deviceType (loading w) with
  | (Pending, w1) => (Pending, w1)
  | (Throw e, w1) =>
      (announced env generic tt,
       restored (posted env generic "error" (add_console e w1)))
  | (Normal url, w1) =>
      if truthy url
      then
        if converts url
        then (Normal tt,
              restored (notified (JStr "下载已开始") "success" (add_click url w1)))
        else (announced env generic tt,
              restored (posted env generic "error"
                          (add_console
                             (TypeError "Cannot convert object to primitive value") w1)))
      else (Normal tt, restored w1)
  end.

Section Outcomes.
Context (env : Env).

(** The outcomes of the two hops of a flow started in [w]. *)
Definition first_hop (deviceType : string) (w : World) : FetchOutcome :=
  net env (length (requests w)) (hop1_url env deviceType).

Definition second_hop (w : World) (webhost : JsValue) : FetchOutcome :=
  net env (S (length (requests w))) webhost.

(** Hop 1 answered 2xx with a body whose [webhost] is truthy. *)
Definition forwarded (deviceType : string) (w : World) (webhost : JsValue) : Prop :=
  ∃ r data, first_hop deviceType w = Resolved r ∧ ok r = true ∧
            json_body r = Some data ∧ get data "webhost" = inr webhost ∧
            truthy webhost = true.



(** Server-signaled failure as the script tests it: a 2xx JSON body whose
    expected field is falsy while [code] and [msg] are both truthy. *)
Definition server_failure (field : string) (o : FetchOutcome) (msg : JsValue) : Prop :=
  ∃ r data v code, o = Resolved r ∧ ok r = true ∧ json_body r = Some data ∧
            get data field = inr v ∧ truthy v = false ∧
            get data "code" = inr code ∧ truthy code = true ∧
            get data "msg" = inr msg ∧ truthy msg = true.



(** A flow is refused by the server at either hop, with message [msg]. *)
Definition flow_refused (deviceType : string) (w : World) (msg : JsValue) : Prop :=
  server_failure "webhost" (first_hop deviceType w) msg ∨
  ∃ webhost, forwarded deviceType w webhost ∧
             server_failure "go" (second_hop w webhost) msg.

End Outcomes.

(** *** A sample page and sample servers *)

Definition sample_page : World :=
  mkWorld
    [mkElement "pc" ["download-btn"; "download-btn--pc"] ∅ ∅;
     mkElement "mobile" ["download-btn"; "download-btn--mobile"] ∅ ∅;
     mkElement "legacy" ["getDown"] ∅ ∅]
    [] [] [] [] [].

(** A network that answers the first request with [o1] and every later one
    with [o2]. *)
Definition answers (o1 o2 : FetchOutcome) (n : nat) (input : JsValue) : FetchOutcome :=
  match n with
  | O => o1
  | S _ => o2
  end.

Definition desktop (o1 o2 : FetchOutcome) : Env :=
  mkEnv "sigua.io" "Mozilla/5.0 (Windows NT 10.0; Win64; x64)" (answers o1 o2)
        (λ _, NoButton).

Definition phone (o1 o2 : FetchOutcome) : Env :=
  mkEnv "sigua.io" "Mozilla/5.0 (iPhone; CPU iPhone OS 17_0 like Mac OS X)"
        (answers o1 o2) (λ _, NoButton).

Definition http (code : Z) : FetchOutcome := Resolved (mkResponse code None Malformed).

Definition json_200 (v : JsValue) : FetchOutcome :=
  Resolved (mkResponse 200 (Some v) Malformed).

End Download.

(** ** spa.js: the single-page manager *)

Module Spa.
Import Js Eff Dom.
Local Open Scope eff_scope.

(** An entry of the session history: the state object handed to
    [pushState] ([Some s] for [{ section: s }], [None] for the [null] state of
    an entry that no script pushed) and the fragment of its URL as
    [location.hash] reads it. *)
Record HistoryEntry : Type := mkEntry {
  state : option string;
  hash : string
}.

(** Callbacks handed to [setTimeout]: reveal the element at an index. *)
Inductive TimerAction : Type :=
| Reveal (target : nat).

(** The page as the manager sees it.  The session history is kept around
    its current entry: [past] holds the entries behind it, nearest first, and
    [future] those ahead of it, nearest first. *)
Record Page : Type := mkPage {
  document : list Element;
  currentSection : string;              (* [this.currentSection] *)
  past : list HistoryEntry;
  current : HistoryEntry;
  future : list HistoryEntry;
  timers : list (Z * TimerAction)
}.

Definition set_document (f : list Element → list Element) (p : Page) : Page :=
  mkPage (f (document p)) (currentSection p) (past p) (current p) (future p) (timers p).

Definition set_currentSection (s : string) (p : Page) : Page :=
  mkPage (document p) s (past p) (current p) (future p) (timers p).

Definition add_timer (delay : Z) (a : TimerAction) (p : Page) : Page :=
  mkPage (document p) (currentSection p) (past p) (current p) (future p)
         (timers p ++ [(delay, a)]).

(** [history.pushState(state, '', url)]: the entries ahead are dropped and
    the new entry becomes the current one. *)
Definition pushState (e : HistoryEntry) (p : Page) : Page :=
  mkPage (document p) (currentSection p) (current p :: past p) e [] (timers p).

(** [window.location.hash] and [window.history.length]. *)
Definition location_hash (p : Page) : string := hash (current p).

Definition history_length (p : Page) : nat :=
  (length (past p) + 1 + length (future p))%nat.

(** [this.sections]. *)
Definition sections : list string := ["home"; "features"; "faq"; "download"].

(** [this.sections.includes(section)]. *)
Definition includes (section : string) : bool := bool_decide (section ∈ sections).

(** [document.getElementById]: elements without an id carry the empty
    string, which no lookup finds. *)
Definition getElementById (id : string) (doc : list Element) : option nat :=
  if bool_decide (id = "") then None else find_index (by_id id) doc.

(** [s.substring(1)]. *)
Definition substring_1 (s : string) : string :=
  match s with
  | "" => ""
  | String _ rest => rest
  end.

Definition showSection (section : string) (animate : bool) : Eff Page unit :=
  modify (set_document (for_each (has_class "section") (λ s,
    let s' := remove_class "section--active" s in
    if animate
    then set_style "transform" "translateY(20px)" (set_style "opacity" "0" s')
    else s'))) ;;
  (λ p,
     match getElementById section (document p) with
     | Some target =>
         (modify (set_document (alter (add_class "section--active") target)) ;;
          if animate
          then modify (add_timer 100 (Reveal target))
          else modify (set_document (alter (λ t,
                 set_style "transform" "translateY(0)" (set_style "opacity" "1" t))
                 target))) p
     | None => ret tt p
     end) ;;
  modify (set_currentSection section).

(** The callback of the [setTimeout] of [showSection] fires. *)
Definition run_timer (a : TimerAction) : Eff Page unit :=
  match a with
  | Reveal target =>
      modify (set_document (alter (λ t,
        set_style "transform" "translateY(0)" (set_style "opacity" "1" t)) target))
  end.

(** The document after [showSection]. *)
Definition shown (section : string) (animate : bool) (doc : list Element)
    : list Element :=
  let doc1 := for_each (has_class "section") (λ s,
    let s' := remove_class "section--active" s in
    if animate
    then set_style "transform" "translateY(20px)" (set_style "opacity" "0" s')
    else s') doc in
  match getElementById section doc1 with
  | Some target =>
      let doc2 := alter (add_class "section--active") target doc1 in
      if animate then doc2
      else alter (λ t, set_style "transform" "translateY(0)" (set_style "opacity" "1" t))
                 target doc2
  | None => doc1
  end.

(** The fragment of the new URL as [location.hash] reads it back, for a
    section name that the fragment setter leaves as it is. *)
Definition updateURL (section : string) : Eff Page unit :=
  modify (pushState (mkEntry (Some section)
                             (if bool_decide (section = "") then "" else "#" ++ section))).

(** The selector of the active link is built by putting [section] between
    double quotes; for a name without a quote, a backslash or a line break,
    as the four section names are, it selects by equality of the
    [data-section] attribute. *)
Definition updateActiveNav (section : string) : Eff Page unit :=
  modify (set_document (for_each (has_class "nav__link")
                                 (remove_class "nav__link--active"))) ;;
  (λ p,
     match find_index (by_attr "data-section" section) (document p) with
     | Some activeLink =>
         modify (set_document (alter (add_class "nav__link--active") activeLink)) p
     | None => ret tt p
     end).

Definition navigateToSection (section : string) : Eff Page unit :=
  if includes section
  then showSection section true ;;
       updateURL section ;;
       updateActiveNav section
  else ret tt.

Definition handleInitialRoute : Eff Page unit :=
  λ p,
    let hash := substring_1 (location_hash p) in
    if negb (String.eqb hash "") && includes hash
    then (showSection hash false ;; updateActiveNav hash) p
    else updateActiveNav "home" p.

(** The [popstate] listener of [bindEvents], given [e.state]. *)
Definition onPopState (st : option string) : Eff Page unit :=
  match st with
  | Some section =>
      if negb (String.eqb section "") then showSection section false else ret tt
  | None => ret tt
  end.

(** The click listener of a [.nav__link[data-section]] element, given
    [e.target.getAttribute('data-section')]. *)
Definition onNavLinkClick (attr : option string) : Eff Page unit :=
  match attr with
  | Some section => navigateToSection section
  | None => ret tt
  end.

(** The click listener of an [a[href^="#"]] element, given its [href]. *)
Definition onAnchorClick (href : string) : Eff Page unit :=
  if String.eqb href "#" then ret tt
  else
    let targetId := substring_1 href in
    if includes targetId then navigateToSection targetId else ret tt.

(** The constructor, run on the served markup [doc] in a document whose
    current history entry is [entry]: [currentSection] starts as "home" and
    [init] ends with [handleInitialRoute]. *)
Definition construct (doc : list Element) (entry : HistoryEntry)
    (behind ahead : list HistoryEntry) : Completion unit * Page :=
  handleInitialRoute (mkPage doc "home" behind entry ahead []).

(** The browser's back and forward buttons between entries of this
    document: the neighbouring entry becomes current, nothing is added, and
    [popstate] is dispatched with its state. *)
Definition back : Eff Page unit :=
  λ p,
    match past p with
    | [] => ret tt p
    | e :: behind =>
        onPopState (state e)
          (mkPage (document p) (currentSection p) behind e (current p :: future p)
                  (timers p))
    end.

Definition forward : Eff Page unit :=
  λ p,
    match future p with
    | [] => ret tt p
    | e :: ahead =>
        onPopState (state e)
          (mkPage (document p) (currentSection p) (current p :: past p) e ahead
                  (timers p))
    end.

(** The element with the given id carries the active marker. *)
Definition active (id : string) (doc : list Element) : bool :=
  match getElementById id doc with
  | Some i => from_option (has_class "section--active") false (doc !! i)
  | None => false
  end.

(** *** The FAQ accordion *)

(** A [.faq-item] element: its class list, whether it has a
    [.faq-item__question] descendant, and its first [.faq-item__answer]
    descendant, if any, with that element's [scrollHeight]. *)
Record FaqItem : Type := mkFaqItem {
  item_classes : list string;
  has_question : bool;
  answer : option (Element * Z)
}.

Definition is_open (it : FaqItem) : bool := contains "faq-item--open" (item_classes it).

(** [setupFAQ] binds a listener only on an item with both descendants. *)
Definition bound (it : FaqItem) : bool := has_question it && bool_decide (is_Some (answer it)).

Definition close_item (other : FaqItem) : FaqItem :=
  mkFaqItem (remove "faq-item--open" (item_classes other)) (has_question other)
            (prod_map (set_style "maxHeight" "0") id <$> answer other).

Definition open_item (it : FaqItem) : FaqItem :=
  mkFaqItem (add "faq-item--open" (item_classes it)) (has_question it)
            ((λ a, (set_style "maxHeight" (pretty a.2 ++ "px") a.1, a.2)) <$> answer it).

(** A click on the question of the [i]-th item. *)
Definition onQuestionClick (i : nat) (faqItems : list FaqItem) : list FaqItem :=
  match faqItems !! i with
  | Some it =>
      if bound it then
        let isOpen := is_open it in
        let closed := close_item <$> faqItems in
        if negb isOpen then alter open_item i closed else closed
      else faqItems
  | None => faqItems
  end.

(** The items after a sequence of clicks. *)
Definition clicks (js : list nat) (faqItems : list FaqItem) : list FaqItem :=
  foldl (λ items j, onQuestionClick j items) faqItems js.

Definition open_count (faqItems : list FaqItem) : nat :=
  length (filter (λ it, is_open it = true) faqItems).

(** The document after [updateActiveNav]. *)
Definition highlighted (section : string) (doc : list Element) : list Element :=
  let doc1 := for_each (has_class "nav__link") (remove_class "nav__link--active") doc in
  match find_index (by_attr "data-section" section) doc1 with
  | Some activeLink => alter (add_class "nav__link--active") activeLink doc1
  | None => doc1
  end.

(** Two elements with the same id and the same active marker. *)
Definition same_marker (e e' : Element) : Prop :=
  el_id e' = el_id e ∧ has_class "section--active" e' = has_class "section--active" e.

(** A click on a question that has a listener. *)
Definition activation (faqItems : list FaqItem) (i : nat) : Prop :=
  ∃ it, faqItems !! i = Some it ∧ bound it = true.

(** *** A sample page *)

Definition section_el (id : string) (classes : list string) : Element :=
  mkElement id ("section" :: classes) ∅ ∅.

Definition link_el (target : string) (classes : list string) : Element :=
  mkElement "" ("nav__link" :: classes) {[ "data-section" := target ]} ∅.

Definition sample_markup : list Element :=
  [link_el "home" ["nav__link--active"]; link_el "features" [];
   link_el "faq" []; link_el "download" [];
   section_el "home" ["section--active"]; section_el "features" [];
   section_el "faq" []; section_el "download" []].

(** The same markup with no section marked active. *)
Definition bare_markup : list Element :=
  [link_el "home" []; link_el "features" []; link_el "faq" []; link_el "download" [];
   section_el "home" []; section_el "features" [];
   section_el "faq" []; section_el "download" []].

Definition fresh_entry (fragment : string) : HistoryEntry := mkEntry None fragment.

Definition sample_faq : list FaqItem :=
  [mkFaqItem ["faq-item"] true (Some (mkElement "" ["faq-item__answer"] ∅ ∅, 120));
   mkFaqItem ["faq-item"; "faq-item--open"] true
             (Some (mkElement "" ["faq-item__answer"] ∅ ∅, 80));
   mkFaqItem ["faq-item"] true (Some (mkElement "" ["faq-item__answer"] ∅ ∅, 64))].

End Spa.

(** ** navigation.js: the navigation manager *)

Module Navigation.
Import Js Eff Dom.
Local Open Scope eff_scope.

(** What the manager holds and touches: the two elements looked up by the
    constructor ([None] when [getElementById] found nothing), its flag, the
    inline [overflow] of the body, the header with the last scroll offset,
    and the targets handed to [scrollIntoView]. *)
Record Nav : Type := mkNav {
  navToggle : option Element;
  nav : option Element;
  isNavOpen : bool;
  body_overflow : string;
  header : option Element;
  lastScrollTop : Z;
  scrolledTo : list string
}.

Definition set_isNavOpen (b : bool) (s : Nav) : Nav :=
  mkNav (navToggle s) (nav s) b (body_overflow s) (header s) (lastScrollTop s)
        (scrolledTo s).

Definition set_body_overflow (v : string) (s : Nav) : Nav :=
  mkNav (navToggle s) (nav s) (isNavOpen s) v (header s) (lastScrollTop s)
        (scrolledTo s).

Definition set_header (f : Element → Element) (s : Nav) : Nav :=
  mkNav (navToggle s) (nav s) (isNavOpen s) (body_overflow s) (f <$> header s)
        (lastScrollTop s) (scrolledTo s).

Definition set_lastScrollTop (z : Z) (s : Nav) : Nav :=
  mkNav (navToggle s) (nav s) (isNavOpen s) (body_overflow s) (header s) z
        (scrolledTo s).

Definition add_scroll (target : string) (s : Nav) : Nav :=
  mkNav (navToggle s) (nav s) (isNavOpen s) (body_overflow s) (header s)
        (lastScrollTop s) (scrolledTo s ++ [target]).

(** [this.navToggle.classList...]: a [TypeError] when the element is
    missing. *)
Definition on_navToggle (f : Element → Element) : Eff Nav unit :=
  λ s,
    match navToggle s with
    | Some t =>
        (Normal tt, mkNav (Some (f t)) (nav s) (isNavOpen s) (body_overflow s)
                          (header s) (lastScrollTop s) (scrolledTo s))
    | None => (Throw (TypeError "Cannot read properties of null"), s)
    end.

Definition on_nav (f : Element → Element) : Eff Nav unit :=
  λ s,
    match nav s with
    | Some n =>
        (Normal tt, mkNav (navToggle s) (Some (f n)) (isNavOpen s) (body_overflow s)
                          (header s) (lastScrollTop s) (scrolledTo s))
    | None => (Throw (TypeError "Cannot read properties of null"), s)
    end.

Definition openNavigation : Eff Nav unit :=
  on_navToggle (add_class "active") ;;
  on_nav (remove_class "hidden") ;;
  modify (set_isNavOpen true) ;;
  modify (set_body_overflow "hidden") ;;
  on_nav (add_class "nav--open").

Definition closeNavigation : Eff Nav unit :=
  on_navToggle (remove_class "active") ;;
  on_nav (add_class "hidden") ;;
  modify (set_isNavOpen false) ;;
  modify (set_body_overflow "") ;;
  on_nav (remove_class "nav--open").

Definition toggleNavigation : Eff Nav unit :=
  λ s, if isNavOpen s then closeNavigation s else openNavigation s.

(** *** The listeners of [bindEvents], [setupSmoothScrolling] and
    [setupScrollEffects] *)

(** Click on the toggle; the listener is bound only when the toggle exists. *)
Definition onToggleClick : Eff Nav unit :=
  λ s, if bool_decide (is_Some (navToggle s)) then toggleNavigation s else ret tt s.

(** Click anywhere in the document, given whether the panel and the toggle
    contain the target. *)
Definition onDocumentClick (in_nav in_toggle : bool) : Eff Nav unit :=
  λ s,
    if isNavOpen s then
      (on_nav id ;;
       if negb in_nav
       then on_navToggle id ;;
            if negb in_toggle then closeNavigation else ret tt
       else ret tt) s
    else ret tt s.

Definition onKeyDown (key : string) : Eff Nav unit :=
  λ s, if String.eqb key "Escape" && isNavOpen s then closeNavigation s else ret tt s.

Definition onResize (innerWidth : Z) : Eff Nav unit :=
  λ s, if (768 <=? innerWidth)%Z && isNavOpen s then closeNavigation s else ret tt s.

(** Click on an [a[href^="#"]], given the id its [href] names and whether an
    element with that id exists. *)
Definition onAnchorClick (targetId : string) (found : bool) : Eff Nav unit :=
  if found then
    (λ s, if isNavOpen s then closeNavigation s else ret tt s) ;;
    modify (add_scroll targetId)
  else ret tt.

(** Scroll, given [window.pageYOffset || document.documentElement.scrollTop]. *)
Definition onScroll (scrollTop : Z) : Eff Nav unit :=
  modify (set_header (λ h,
    if (50 <? scrollTop)%Z then add_class "header--scrolled" h
    else remove_class "header--scrolled" h)) ;;
  (λ s,
     if (lastScrollTop s <? scrollTop)%Z && (100 <? scrollTop)%Z
     then modify (set_header (add_class "header--hidden")) s
     else modify (set_header (remove_class "header--hidden")) s) ;;
  modify (set_lastScrollTop scrollTop).

Inductive Listener : Type :=
| ToggleClick
| DocumentClick (in_nav in_toggle : bool)
| KeyDown (key : string)
| Resize (innerWidth : Z)
| AnchorClick (targetId : string) (found : bool)
| Scroll (scrollTop : Z).

Definition listen (l : Listener) : Eff Nav unit :=
  match l with
  | ToggleClick => onToggleClick
  | DocumentClick in_nav in_toggle => onDocumentClick in_nav in_toggle
  | KeyDown key => onKeyDown key
  | Resize innerWidth => onResize innerWidth
  | AnchorClick targetId found => onAnchorClick targetId found
  | Scroll scrollTop => onScroll scrollTop
  end.

(** The three operations on the navigation state. *)
Inductive Operation : Type := Toggle | Open | Close.

Definition perform (op : Operation) : Eff Nav unit :=
  match op with
  | Toggle => toggleNavigation
  | Open => openNavigation
  | Close => closeNavigation
  end.

(** The constructor on the served markup. *)
Definition construct (toggle panel head : option Element) (overflow : string) : Nav :=
  mkNav toggle panel false overflow head 0 [].

(** *** The navigation state and its invariant *)

(** The panel is shown: it exists, is not [hidden] and carries [nav--open]. *)
Definition panel_visible (s : Nav) : bool :=
  match nav s with
  | Some n => negb (has_class "hidden" n) && has_class "nav--open" n
  | None => false
  end.

(** Page scroll is locked. *)
Definition scroll_locked (s : Nav) : bool :=
  bool_decide (body_overflow s = "hidden").

(** [isNavOpen] is true iff the panel is visible and page scroll is locked. *)
Definition nav_invariant (s : Nav) : Prop :=
  isNavOpen s = panel_visible s && scroll_locked s.

(** The part of the page that the operations write. *)
Definition nav_state (s : Nav) : option Element * option Element * bool * string :=
  (navToggle s, nav s, isNavOpen s, body_overflow s).

Definition sample_nav : Nav :=
  construct (Some (mkElement "nav-toggle" ["nav-toggle"] ∅ ∅))
            (Some (mkElement "main-nav" ["nav"; "hidden"] ∅ ∅))
            (Some (mkElement "" ["header"] ∅ ∅)) "".

End Navigation.

(** ** Further notions about the three controllers *)

Module More.
Import Js Eff Dom.

(** *** Strings *)

(** Every byte of [s] satisfies [P]. *)
Fixpoint all_chars (P : ascii → bool) (s : string) : bool :=
  match s with
  | "" => true
  | String c rest => P c && all_chars P rest
  end.

(** The bytes that an encoded query component can hold: the bytes left as
    they are, "+" and the three bytes of a percent escape. *)
Definition component_char (c : ascii) : bool :=
  Download.is_alnum c || bool_decide (c ∈ ["*"; "-"; "."; "_"; "+"; "%"]%char).

(** [s] with its ASCII capitals in lower case. *)
Fixpoint lowercase (s : string) : string :=
  match s with
  | "" => ""
  | String c rest => String (Download.lower c) (lowercase rest)
  end.

(** [p] occurs in [s] up to the case of ASCII letters. *)
Definition occurs_ci (p s : string) : Prop :=
  ∃ pre mid post, s = pre ++ mid ++ post ∧ lowercase mid = p.

(** *** Download flows *)

Section Flows.
Context (env : Download.Env).
Import Download.


(** A promise that a hop awaits never settles: that of [fetch], or that of
    [response.json()] on a 2xx response whose body never ends. *)
Definition never_settles (o : FetchOutcome) : Prop :=
  o = Hung ∨
  ∃ r, o = Resolved r ∧ ok r = true ∧ json_body r = None ∧ body_fault r = Unending.

(** A promise awaited by the flow never settles. *)
Definition hung (deviceType : string) (w : World) : Prop :=
  never_settles (first_hop env deviceType w) ∨
  ∃ webhost, forwarded env deviceType w webhost ∧
             never_settles (second_hop env w webhost).

(** A 2xx JSON body, other than [null], in which neither the expected field
    nor the [code] and [msg] pair is truthy. *)
Definition no_address (field : string) (o : FetchOutcome) : Prop :=
  ∃ r data v both, o = Resolved r ∧ ok r = true ∧ json_body r = Some data ∧
      get data field = inr v ∧ truthy v = false ∧
      js_and (get data "code") (get data "msg") = inr both ∧ truthy both = false.

(** What a hop throws, by the outcome of its request: a rejected [fetch],
    a status outside 2xx, a 2xx body that is not JSON, that breaks off or that
    is [null], and a 2xx JSON body without an address. *)
Definition failure (field missing : string) (o : FetchOutcome) (e : JsError) : Prop :=
  (o = Rejected ∧ e = NetworkError) ∨
  (∃ r, o = Resolved r ∧ ok r = false ∧
        e = Error ("HTTP error! status: " ++ pretty (status r))) ∨
  (∃ r, o = Resolved r ∧ ok r = true ∧ json_body r = None ∧
        body_fault r = Malformed ∧ e = SyntaxError) ∨
  (∃ r, o = Resolved r ∧ ok r = true ∧ json_body r = None ∧
        body_fault r = Interrupted ∧ e = NetworkError) ∨
  (∃ r, o = Resolved r ∧ ok r = true ∧ json_body r = Some JNull ∧
        e = TypeError "Cannot read properties of null") ∨
  (no_address field o ∧ e = Error missing).

(** The hop that decides a flow: hop 1 unless it forwarded, then hop 2. *)
Definition deciding_hop (deviceType : string) (w : World) : Hop :=
  match hop "webhost" "未获取到有效的下载地址" (first_hop env deviceType w) with
  | Found webhost => hop "go" "未获取到最终下载地址" (second_hop env w webhost)
  | other => other
  end.

(** What a flow with catch message [generic] leaves for a deciding hop: how
    it completes, the notifications it adds, the errors it logs and the
    anchors it clicks. *)
Definition report (generic : JsValue) (h : Hop)
    : Completion unit * list Notification * list JsError * list JsValue :=
  match h with
  | Suspended => (Pending, [], [], [])
  | Failed e => (Normal tt, [note generic "error"], [e], [])
  | Signaled msg =>
      match rendering env msg with
      | WithButton => (Normal tt, [note msg "error"], [], [])
      | NoButton =>
          (Normal tt, [note msg "error"; note generic "error"],
           [TypeError "Cannot read properties of null"], [])
      | Unprintable =>
          (Normal tt, [note generic "error"],
           [TypeError "Cannot convert object to primitive value"], [])
      end
  | Found go =>
      if converts go
      then (Normal tt, [note (JStr "下载已开始") "success"], [], [go])
      else (Normal tt, [note generic "error"],
            [TypeError "Cannot convert object to primitive value"], [])
  end.

End Flows.

(** *** Sections *)

(** What [showSection] makes of the element at index [j]: a [.section]
    element loses the marker (and is faded out when animating); the target,
    found at index [i], gains the marker (and is shown at once when not
    animating). *)
Definition shown_element (animate : bool) (target : option nat) (j : nat)
    (e : Element) : Element :=
  let e1 :=
    if has_class "section" e then
      let s' := remove_class "section--active" e in
      if animate
      then set_style "transform" "translateY(20px)" (set_style "opacity" "0" s')
      else s'
    else e in
  if bool_decide (target = Some j) then
    let e2 := add_class "section--active" e1 in
    if animate then e2
    else set_style "transform" "translateY(0)" (set_style "opacity" "1" e2)
  else e1.

(** What [updateActiveNav] makes of the element at index [j]: a
    [.nav__link] element loses the highlighting; the first element whose
    [data-section] is the section, found at index [i], gains it. *)
Definition highlighted_element (activeLink : option nat) (j : nat) (e : Element)
    : Element :=
  let e1 := if has_class "nav__link" e then remove_class "nav__link--active" e else e in
  if bool_decide (activeLink = Some j) then add_class "nav__link--active" e1 else e1.

End More.

(** * Facts about the download manager *)

Module DownloadFacts.
Import Js Eff Dom Download.
Local Open Scope eff_scope.
Local Arguments showNotification : simpl never.
Local Arguments rendering : simpl never.

(** *** Serializing and parsing a query string *)

Lemma form_decode_byte c t :
  form_decode (form_byte c ++ t) = String c (form_decode t).
Proof. destruct c as [[] [] [] [] [] [] [] []]; reflexivity. Qed.

Lemma form_decode_encode s : form_decode (form_encode s) = s.
Proof.
  induction s as [|c s IH]; [reflexivity|]. simpl.
  rewrite form_decode_byte, IH. reflexivity.
Qed.

Lemma string_app_cons x (a b : string) : String x a ++ b = String x (a ++ b).
Proof. reflexivity. Qed.

Lemma string_app_assoc (a b c : string) : (a ++ b) ++ c = a ++ (b ++ c).
Proof.
  induction a as [|x a IH]; [reflexivity|].
  rewrite !string_app_cons, IH. reflexivity.
Qed.

Lemma pieces_byte c t :
  pieces "&" (form_byte c ++ t) = (form_byte c ++ (pieces "&" t).1, (pieces "&" t).2).
Proof. destruct c as [[] [] [] [] [] [] [] []]; reflexivity. Qed.

Lemma pieces_encode s t :
  pieces "&" (form_encode s ++ t)
  = (form_encode s ++ (pieces "&" t).1, (pieces "&" t).2).
Proof.
  induction s as [|c s IH]; simpl.
  - change ("" ++ t) with t. destruct (pieces "&" t); reflexivity.
  - rewrite string_app_assoc, pieces_byte, IH. simpl. rewrite string_app_assoc.
    reflexivity.
Qed.

Lemma cut_byte c t :
  cut "=" (form_byte c ++ t) = (form_byte c ++ (cut "=" t).1, (cut "=" t).2).
Proof. destruct c as [[] [] [] [] [] [] [] []]; reflexivity. Qed.

Lemma cut_encode s t :
  cut "=" (form_encode s ++ t) = (form_encode s ++ (cut "=" t).1, (cut "=" t).2).
Proof.
  induction s as [|c s IH]; simpl.
  - change ("" ++ t) with t. destruct (cut "=" t); reflexivity.
  - rewrite string_app_assoc, cut_byte, IH. simpl. rewrite string_app_assoc. reflexivity.
Qed.

Lemma string_app_nil (a : string) : a ++ "" = a.
Proof.
  induction a as [|x a IH]; [reflexivity|].
  rewrite string_app_cons, IH. reflexivity.
Qed.

Lemma pair_nonempty k t : form_encode k ++ String "=" t ≠ "".
Proof. destruct (form_encode k); discriminate. Qed.

Lemma decode_pair k v :
  (form_decode (cut "=" (form_encode k ++ String "=" (form_encode v))).1,
   form_decode (cut "=" (form_encode k ++ String "=" (form_encode v))).2) = (k, v).
Proof.
  rewrite cut_encode. simpl.
  rewrite string_app_nil, !form_decode_encode. reflexivity.
Qed.

Lemma pieces_last v : pieces "&" (form_encode v) = (form_encode v, []).
Proof.
  rewrite <- (string_app_nil (form_encode v)) at 1. rewrite pieces_encode.
  simpl. rewrite string_app_nil. reflexivity.
Qed.

(** Parsing what [URLSearchParams] serialized gives the pairs back. *)
Lemma parse_query_toString params :
  parse_query (URLSearchParams_toString params) = params.
Proof.
  unfold parse_query.
  induction params as [|[k v] rest IH]; [reflexivity|].
  destruct rest as [|kv' rest].
  - change (URLSearchParams_toString [(k, v)])
      with (form_encode k ++ String "=" (form_encode v)).
    rewrite pieces_encode.
    change (pieces "&" (String "=" ?x))
      with (String "=" (pieces "&" x).1, (pieces "&" x).2).
    rewrite pieces_last. cbn [fst snd].
    rewrite filter_cons_True by apply pair_nonempty.
    rewrite filter_nil, fmap_cons, decode_pair. reflexivity.
  - change (URLSearchParams_toString ((k, v) :: kv' :: rest))
      with (form_encode k ++ String "=" (form_encode v ++
            String "&" (URLSearchParams_toString (kv' :: rest)))).
    rewrite pieces_encode.
    change (pieces "&" (String "=" ?x))
      with (String "=" (pieces "&" x).1, (pieces "&" x).2).
    rewrite pieces_encode.
    change (pieces "&" (String "&" ?x))
      with ("", (pieces "&" x).1 :: (pieces "&" x).2).
    cbn [fst snd]. rewrite string_app_nil.
    rewrite filter_cons_True by apply pair_nonempty.
    rewrite fmap_cons, decode_pair, IH. reflexivity.
Qed.

Section Facts.
Context (env : Env).

Lemma showNotification_eq msg type w :
  showNotification env msg type w = (announced env msg tt, posted env msg type w).
Proof.
  unfold showNotification, announced, posted, bind, modify, throw.
  destruct (rendering env msg); reflexivity.
Qed.

Lemma announced_busy_500 : announced env busy_500 tt = Normal tt.
Proof. reflexivity. Qed.

Lemma announced_site_expired : announced env site_expired tt = Normal tt.
Proof. reflexivity. Qed.

Lemma get_twice data key e :
  get data key = inl e → ∀ key', get data key' = inl e.
Proof. destruct data; simpl; intros H key'; try discriminate; exact H. Qed.

Lemma getDownloadUrl_resolve deviceType w :
  getDownloadUrl env deviceType w = resolve env deviceType w.
Proof.
  unfold getDownloadUrl, resolve, hop1_url, bind, fetch.
  destruct (net env (length (requests w)) _) as [r1| |]; simpl; try reflexivity.
  destruct (ok r1); simpl; [|reflexivity].
  unfold json, never. destruct (json_body r1) as [data1|]; simpl;
    [|destruct (body_fault r1); reflexivity].
  destruct (get data1 "webhost") as [e|webhost] eqn:Hw; simpl.
  { reflexivity. }
  destruct (truthy webhost); simpl.
  - destruct (net env _ webhost) as [r2| |]; simpl; try reflexivity.
    destruct (ok r2); simpl; [|reflexivity].
    destruct (json_body r2) as [data2|]; simpl;
      [|destruct (body_fault r2); reflexivity].
    destruct (get data2 "go") as [e|go] eqn:Hg; simpl; [reflexivity|].
    destruct (truthy go); simpl; [reflexivity|].
    destruct (js_and (get data2 "code") (get data2 "msg")) as [e|both]; simpl;
      [reflexivity|].
    destruct (truthy both); simpl; [|reflexivity].
    destruct (get data2 "msg") as [e|msg]; simpl; [reflexivity|].
    unfold showError. rewrite showNotification_eq.
    unfold announced, posted. destruct (rendering env msg); reflexivity.
  - destruct (js_and (get data1 "code") (get data1 "msg")) as [e|both]; simpl;
      [reflexivity|].
    destruct (truthy both); simpl; [|reflexivity].
    destruct (get data1 "msg") as [e|msg]; simpl; [reflexivity|].
    unfold showError. rewrite showNotification_eq.
    unfold announced, posted. destruct (rendering env msg); reflexivity.
Qed.

Lemma handleDownload_flow deviceType w :
  handleDownload env deviceType w = flow busy_500 env deviceType w.
Proof.
  unfold handleDownload, flow, try_catch_finally, bind.
  change (showLoadingState w) with (Normal tt, loading w).
  cbv beta iota. rewrite getDownloadUrl_resolve.
  destruct (resolve env deviceType (loading w)) as [[url|e|] w1]; try reflexivity.
  unfold downloadFile.
  destruct (truthy url); [|reflexivity]. destruct (converts url); reflexivity.
Qed.

Lemma handleOriginalDownload_flow w :
  handleOriginalDownload env w = flow site_expired env (detectDeviceType env) w.
Proof.
  unfold handleOriginalDownload, flow, try_catch_finally, bind.
  change (showLoadingState w) with (Normal tt, loading w).
  cbv beta iota zeta. rewrite getDownloadUrl_resolve.
  destruct (resolve env (detectDeviceType env) (loading w)) as [[url|e|] w1];
    try reflexivity.
  unfold downloadFile.
  destruct (truthy url); [|reflexivity]. destruct (converts url); reflexivity.
Qed.




Lemma hop_server field missing o msg :
  server_failure field o msg → hop field missing o = Signaled msg.
Proof.
  intros (r & data & v & code & -> & Hok & Hbody & Hv & Hvf & Hc & Hct & Hm & Hmt).
  simpl. rewrite Hok, Hbody, Hv, Hvf, Hc, Hm. simpl. rewrite Hct, Hmt. reflexivity.
Qed.

Lemma hop_forwarded deviceType w webhost missing :
  forwarded env deviceType w webhost →
  hop "webhost" missing (first_hop env deviceType w) = Found webhost.
Proof.
  intros (r & data & -> & Hok & Hbody & Hv & Hvt).
  simpl. rewrite Hok, Hbody, Hv, Hvt. reflexivity.
Qed.

Lemma requests_loading w : requests (loading w) = requests w.
Proof. reflexivity. Qed.

Lemma length_add_request input w :
  length (requests (add_request input w)) = S (length (requests w)).
Proof. simpl. rewrite length_app. simpl. lia. Qed.



Lemma resolve_refused deviceType w msg :
  rendering env msg = WithButton →
  flow_refused env deviceType w msg →
  ∃ w1, resolve env deviceType (loading w) = (Normal JNull, w1) ∧
        body w1 = (body w ++ [note msg "error"])%list ∧
        clicked w1 = clicked w ∧ console w1 = console w ∧
        (server_failure "webhost" (first_hop env deviceType w) msg →
         requests w1 = (requests w ++ [hop1_url env deviceType])%list).
Proof.
  intros Hm. unfold resolve. rewrite requests_loading.
  fold (first_hop env deviceType w).
  intros [H1 | (webhost & Hf & H2)].
  - rewrite (hop_server _ _ _ _ H1). unfold announced, posted. rewrite Hm.
    eexists; split; [reflexivity|]. simpl. auto.
  - rewrite (hop_forwarded _ _ _ _ Hf). cbv zeta.
    rewrite length_add_request, requests_loading. fold (second_hop env w webhost).
    rewrite (hop_server _ _ _ _ H2). unfold announced, posted. rewrite Hm.
    eexists; split; [reflexivity|]. simpl.
    repeat split; auto.
    intros H1.
    pose proof (hop_forwarded _ _ _ "" Hf) as H. rewrite (hop_server _ "" _ _ H1) in H.
    discriminate.
Qed.

Lemma flow_of_refusal generic deviceType w msg :
  rendering env msg = WithButton →
  flow_refused env deviceType w msg →
  ∃ w', flow generic env deviceType w = (Normal tt, w') ∧
        body w' = (body w ++ [note msg "error"])%list ∧
        clicked w' = clicked w ∧ console w' = console w ∧
        (server_failure "webhost" (first_hop env deviceType w) msg →
         requests w' = (requests w ++ [hop1_url env deviceType])%list).
Proof.
  intros Hm H.
  destruct (resolve_refused _ _ _ Hm H) as (w1 & Hres & Hb & Hc & Hk & Hr).
  unfold flow. rewrite Hres. simpl. eexists; split; [reflexivity|]. simpl. auto.
Qed.






Lemma hop_found field missing o v :
  hop field missing o = Found v →
  ∃ r data, o = Resolved r ∧ ok r = true ∧ json_body r = Some data ∧
            get data field = inr v ∧ truthy v = true.
Proof.
  destruct o as [r| |]; simpl; try discriminate.
  destruct (ok r) eqn:Hok; [|discriminate].
  destruct (json_body r) as [data|] eqn:Hbody;
    [|destruct (body_fault r); discriminate].
  destruct (get data field) as [e|v'] eqn:Hget; [discriminate|].
  destruct (truthy v') eqn:Ht.
  - intros [= <-]. eauto 10.
  - destruct (js_and _ _) as [e|both]; [discriminate|].
    destruct (truthy both); [|discriminate].
    destruct (get data "msg"); discriminate.
Qed.

Lemma requests_posted msg type w : requests (posted env msg type w) = requests w.
Proof. unfold posted. destruct (rendering env msg); reflexivity. Qed.

Lemma requests_restored w : requests (restored w) = requests w.
Proof. reflexivity. Qed.

(** The requests of a resolution: hop 1, then at most the forwarded host. *)
Lemma requests_resolve deviceType w :
  ∃ rest, requests (resolve env deviceType w).2
          = (requests w ++ hop1_url env deviceType :: rest)%list ∧
          (rest = [] ∨ ∃ webhost, forwarded env deviceType w webhost ∧ rest = [webhost]).
Proof.
  unfold resolve. cbv zeta.
  destruct (hop "webhost" _ (net env (length (requests w)) (hop1_url env deviceType)))
    as [|e|msg|webhost] eqn:H1;
    try (exists []; split; [cbn [snd]; rewrite ?requests_posted; reflexivity | auto]).
  exists [webhost]. split.
  - match goal with |- context [hop "go" ?m ?o] => destruct (hop "go" m o) end;
      cbn [snd]; rewrite ?requests_posted; simpl; rewrite <- app_assoc; reflexivity.
  - right. exists webhost. split; [|reflexivity]. exact (hop_found _ _ _ _ H1).
Qed.

Lemma requests_flow generic deviceType w :
  ∃ rest, requests (flow generic env deviceType w).2
          = (requests w ++ hop1_url env deviceType :: rest)%list ∧
          (rest = [] ∨ ∃ webhost, forwarded env deviceType w webhost ∧ rest = [webhost]).
Proof.
  destruct (requests_resolve deviceType (loading w)) as (rest & Hreq & Hrest).
  exists rest. split; [|exact Hrest].
  unfold flow. destruct (resolve env deviceType (loading w)) as [[url|e|] w1];
    cbn [snd] in *; [destruct (truthy url); [destruct (converts url)|]|..]; cbn [snd];
    rewrite ?requests_restored, ?requests_posted; exact Hreq.
Qed.


End Facts.

(** ** The claims about the download manager *)




(** C2, as the code has it: when hop 1 answers 2xx with a JSON body whose
    [webhost] is falsy while its [code] and [msg] are both truthy, and [msg]
    renders with the close button of the notification in place (as any text
    without "<" does), the resolution returns [null] without
    throwing, and the flow ends after that single request with exactly one
    new error notification carrying [msg]; nothing is downloaded and nothing
    is logged as an error. *)
Theorem C2_server_signaled_failure_ends_after_hop1 env deviceType w msg :
  server_failure "webhost" (first_hop env deviceType w) msg →
  rendering env msg = WithButton →
  getDownloadUrl env deviceType w
  = (Normal JNull, notified msg "error" (add_request (hop1_url env deviceType) w)) ∧
  (∃ w', handleDownload env deviceType w = (Normal tt, w') ∧
         requests w' = (requests w ++ [hop1_url env deviceType])%list ∧
         body w' = (body w ++ [note msg "error"])%list ∧
         clicked w' = clicked w ∧ console w' = console w) ∧
  (deviceType = detectDeviceType env →
   ∃ w', handleOriginalDownload env w = (Normal tt, w') ∧
         requests w' = (requests w ++ [hop1_url env deviceType])%list ∧
         body w' = (body w ++ [note msg "error"])%list ∧
         clicked w' = clicked w ∧ console w' = console w).
Proof.
  intros H Hm. split; [|split].
  - rewrite getDownloadUrl_resolve. unfold resolve.
    fold (first_hop env deviceType w). rewrite (hop_server _ _ _ _ H).
    unfold announced, posted. rewrite Hm. reflexivity.
  - rewrite handleDownload_flow.
    destruct (flow_of_refusal env busy_500 deviceType w msg) as (w' & ? & ? & ? & ? & Hr);
      [exact Hm | left; exact H|].
    exists w'. auto using Hr.
  - intros ->. rewrite handleOriginalDownload_flow.
    destruct (flow_of_refusal env site_expired (detectDeviceType env) w msg)
      as (w' & ? & ? & ? & ? & Hr); [exact Hm | left; exact H|].
    exists w'. auto using Hr.
Qed.

Lemma C2_server_signaled_failure_ends_after_hop1_witness :
  let env := desktop (json_200 (JObj [("code", JNum 403); ("msg", JStr "forbidden")])) Hung in
  (getDownloadUrl env "pc" sample_page).1 = Normal JNull ∧
  (∃ w', handleDownload env "pc" sample_page = (Normal tt, w') ∧
         requests w' = [JStr "https://a.hkdownload.com/get.php?type=pc&site=sigua.io"] ∧
         body w' = [note (JStr "forbidden") "error"] ∧
         clicked w' = [] ∧ console w' = []).
Proof.
  intros env.
  assert (H : server_failure "webhost" (first_hop env "pc" sample_page) (JStr "forbidden")).
  { do 4 eexists. repeat split; reflexivity. }
  destruct (C2_server_signaled_failure_ends_after_hop1 env "pc" sample_page _ H eq_refl)
    as (Hres & Hflow & _).
  split; [rewrite Hres; reflexivity | exact Hflow].
Defined.

(** C2 as stated fails: a body in which [code] and [msg] are present but
    [code] is 0 is not taken for a server-signaled failure; the flow shows the
    generic message instead of [msg]. *)
Lemma C2_present_but_falsy_code_is_not_signaled :
  ¬ (∀ env deviceType w r data msg,
       first_hop env deviceType w = Resolved r →
       json_body r = Some data →
       has_field data "webhost" = false →
       has_field data "code" = true →
       has_field data "msg" = true →
       get data "msg" = inr msg →
       body (handleDownload env deviceType w).2 = (body w ++ [note msg "error"])%list).
Proof.
  intros H.
  specialize (H (desktop (json_200 (JObj [("code", JNum 0); ("msg", JStr "busy")])) Hung)
                "pc" sample_page _ _ (JStr "busy") eq_refl eq_refl eq_refl eq_refl eq_refl
                eq_refl).
  vm_compute in H. discriminate H.
Qed.

(** A message that swallows the close button, such as an unclosed
    "<textarea>": the notification is shown, the lookup of the button throws
    inside the resolution, and the flow reports the generic error as well. *)
Example refusal_with_swallowed_button :
  let env := desktop (json_200 (JObj [("code", JNum 7); ("msg", JStr "<textarea>")])) Hung in
  (getDownloadUrl env "pc" sample_page).1
  = Throw (TypeError "Cannot read properties of null") ∧
  (handleDownload env "pc" sample_page).1 = Normal tt ∧
  body (handleDownload env "pc" sample_page).2
  = [note (JStr "<textarea>") "error"; note busy_500 "error"].
Proof. vm_compute. repeat split. Qed.

(** C3: for a device type "pc" or "mobile", the first request of the flow
    goes to the base endpoint with a query string that reads [type=] that
    device type and [site=] the current hostname (serialized), and that
    parses back to exactly these two parameters; whatever else the flow
    requests is the single [webhost] that hop 1 returned. *)
Theorem C3_hop1_request_carries_type_and_site env deviceType w :
  deviceType = "pc" ∨ deviceType = "mobile" →
  ∃ query rest,
    requests (handleDownload env deviceType w).2
    = (requests w ++ JStr ("https://a.hkdownload.com/get.php?" ++ query) :: rest)%list ∧
    query = "type=" ++ deviceType ++ "&site=" ++ form_encode (hostname env) ∧
    parse_query query = [("type", deviceType); ("site", hostname env)] ∧
    (rest = [] ∨ ∃ webhost, forwarded env deviceType w webhost ∧ rest = [webhost]).
Proof.
  intros Hd. rewrite handleDownload_flow.
  destruct (requests_flow env busy_500 deviceType w) as (rest & Hreq & Hrest).
  exists (URLSearchParams_toString [("type", deviceType); ("site", hostname env)]), rest.
  split; [exact Hreq|]. split; [|split; [apply parse_query_toString | exact Hrest]].
  destruct Hd as [-> | ->]; reflexivity.
Qed.

Lemma C3_hop1_request_carries_type_and_site_witness :
  ∃ rest,
    requests (handleDownload
                (phone (json_200 (JObj [("webhost", JStr "https://x/y")])) (http 404))
                "mobile" sample_page).2
    = JStr "https://a.hkdownload.com/get.php?type=mobile&site=sigua.io" :: rest.
Proof.
  destruct (C3_hop1_request_carries_type_and_site
              (phone (json_200 (JObj [("webhost", JStr "https://x/y")])) (http 404))
              "mobile" sample_page) as (query & rest & Hreq & -> & _);
    [right; reflexivity|].
  exists rest. exact Hreq.
Defined.










End DownloadFacts.

(** * Facts about class lists *)

Module DomFacts.
Import Dom.

Lemma contains_add c cl : contains c (add c cl) = true.
Proof.
  unfold add. destruct (contains c cl) eqn:H; [exact H|].
  unfold contains. apply bool_decide_eq_true, elem_of_app. right.
  apply list_elem_of_singleton. reflexivity.
Qed.

Lemma contains_remove c cl : contains c (remove c cl) = false.
Proof.
  unfold contains, remove. apply bool_decide_eq_false.
  rewrite list_elem_of_filter. tauto.
Qed.

Lemma contains_add_ne c c' cl : c ≠ c' → contains c (add c' cl) = contains c cl.
Proof.
  intros Hne. unfold add. destruct (contains c' cl); [reflexivity|].
  unfold contains. apply bool_decide_ext. rewrite elem_of_app, list_elem_of_singleton.
  tauto.
Qed.

Lemma contains_remove_ne c c' cl : c ≠ c' → contains c (remove c' cl) = contains c cl.
Proof.
  intros Hne. unfold contains, remove. apply bool_decide_ext.
  rewrite list_elem_of_filter. tauto.
Qed.

Lemma find_index_fmap sel (f : Element → Element) doc :
  (∀ e, sel (f e) = sel e) → find_index sel (f <$> doc) = find_index sel doc.
Proof.
  intros Hf. induction doc as [|e doc IH]; [reflexivity|].
  rewrite fmap_cons. cbn [find_index]. rewrite Hf, IH. reflexivity.
Qed.

Lemma find_index_alter sel (f : Element → Element) i doc :
  (∀ e, sel (f e) = sel e) → find_index sel (alter f i doc) = find_index sel doc.
Proof.
  intros Hf. revert i. induction doc as [|e doc IH]; intros [|i]; simpl;
    rewrite ?Hf; try reflexivity.
  specialize (IH i). unfold alter in IH. rewrite IH. reflexivity.
Qed.

Lemma find_index_lookup sel doc i :
  find_index sel doc = Some i → ∃ e, doc !! i = Some e ∧ sel e = true.
Proof.
  revert i. induction doc as [|e doc IH]; intros i; simpl; [discriminate|].
  destruct (sel e) eqn:He.
  - intros [= <-]. eauto.
  - destruct (find_index sel doc) as [j|]; simpl; [|discriminate].
    intros [= <-]. apply IH. reflexivity.
Qed.

End DomFacts.

(** * Facts about the single-page manager *)

Module SpaFacts.
Import Js Eff Dom DomFacts Spa.
Local Open Scope eff_scope.

(** ** Sections and history *)

Lemma same_marker_nav_off e : same_marker e (remove_class "nav__link--active" e).
Proof.
  split; [reflexivity|]. unfold has_class. simpl.
  apply contains_remove_ne. discriminate.
Qed.

Lemma same_marker_nav_on e : same_marker e (add_class "nav__link--active" e).
Proof.
  split; [reflexivity|]. unfold has_class. simpl.
  apply contains_add_ne. discriminate.
Qed.

Lemma active_same_marker id doc doc' :
  Forall2 same_marker doc doc' → active id doc' = active id doc.
Proof.
  intros H. unfold active, getElementById.
  destruct (bool_decide (id = "")); [reflexivity|].
  induction H as [|e e' doc doc' [Hid Hm] _ IH]; [reflexivity|].
  simpl. unfold by_id at 1 3. rewrite Hid.
  destruct (bool_decide (el_id e = id)); simpl; [exact Hm|].
  destruct (find_index (by_id id) doc') as [j|], (find_index (by_id id) doc) as [k|];
    simpl in *; auto.
Qed.

Lemma same_marker_refl e : same_marker e e.
Proof. split; reflexivity. Qed.

Lemma same_marker_trans e1 e2 e3 :
  same_marker e1 e2 → same_marker e2 e3 → same_marker e1 e3.
Proof. intros [? ?] [? ?]. split; congruence. Qed.

Lemma Forall2_same_marker_fmap (f : Element → Element) doc :
  (∀ e, same_marker e (f e)) → Forall2 same_marker doc (f <$> doc).
Proof.
  intros Hf. apply Forall2_fmap_r, Forall_Forall2_diag, Forall_forall.
  intros e _. apply Hf.
Qed.

Lemma Forall2_same_marker_alter (f : Element → Element) i doc :
  (∀ e, same_marker e (f e)) → Forall2 same_marker doc (alter f i doc).
Proof.
  intros Hf. revert i. induction doc as [|e doc IH]; intros [|i]; simpl.
  - constructor.
  - constructor.
  - constructor; [apply Hf|]. apply Forall_Forall2_diag, Forall_forall.
    intros; apply same_marker_refl.
  - constructor; [apply same_marker_refl | apply IH].
Qed.

Lemma highlighted_same_marker section doc :
  Forall2 same_marker doc (highlighted section doc).
Proof.
  unfold highlighted. cbv zeta.
  set (doc1 := for_each _ _ doc).
  assert (H1 : Forall2 same_marker doc doc1).
  { apply Forall2_same_marker_fmap. intros e.
    destruct (has_class "nav__link" e);
      [apply same_marker_nav_off | apply same_marker_refl]. }
  destruct (find_index _ doc1) as [i|]; [|exact H1].
  eapply Forall2_trans; [exact same_marker_trans | exact H1 |].
  apply Forall2_same_marker_alter, same_marker_nav_on.
Qed.

Lemma updateActiveNav_eq section p :
  updateActiveNav section p = (Normal tt, set_document (highlighted section) p).
Proof.
  unfold updateActiveNav, highlighted, bind, modify, set_document. simpl.
  destruct (find_index _ _); reflexivity.
Qed.

Lemma showSection_frame section animate p :
  ∃ p', showSection section animate p = (Normal tt, p') ∧
        document p' = shown section animate (document p) ∧
        currentSection p' = section ∧
        past p' = past p ∧ current p' = current p ∧ future p' = future p.
Proof.
  unfold showSection, shown, bind, modify. cbv zeta. cbn [document set_document].
  destruct (getElementById section _); destruct animate;
    eexists; (split; [reflexivity|]); cbn; auto.
Qed.

(** After [showSection], the element with the given id, if there is one,
    carries the active marker. *)
Lemma shown_activates section animate doc i :
  getElementById section doc = Some i →
  active section (shown section animate doc) = true.
Proof.
  unfold shown, active, getElementById.
  destruct (bool_decide (section = "")); [discriminate|].
  set (hide := λ s : Element, _).
  assert (Hhide : ∀ e, by_id section
                         (if has_class "section" e then hide e else e) = by_id section e).
  { intros e. destruct (has_class "section" e); [|reflexivity].
    unfold hide. destruct animate; reflexivity. }
  intros Hi. cbv zeta. unfold for_each.
  rewrite (find_index_fmap _ _ _ Hhide), Hi.
  destruct (find_index_lookup _ _ _ Hi) as (e & He & _).
  destruct animate.
  - rewrite find_index_alter by reflexivity.
    rewrite (find_index_fmap _ _ _ Hhide), Hi.
    rewrite list_lookup_alter_eq, list_lookup_fmap, He. simpl. apply contains_add.
  - rewrite !find_index_alter by reflexivity.
    rewrite (find_index_fmap _ _ _ Hhide), Hi.
    rewrite !list_lookup_alter_eq, list_lookup_fmap, He. simpl. apply contains_add.
Qed.

(** [navigateToSection] with a known section pushes one entry whose
    fragment names the section. *)
Lemma navigate_pushes section p :
  includes section = true →
  ∃ p', navigateToSection section p = (Normal tt, p') ∧
        currentSection p' = section ∧
        location_hash p' = "#" ++ section ∧
        state (current p') = Some section ∧
        past p' = current p :: past p ∧ future p' = [].
Proof.
  intros Hin. unfold navigateToSection. rewrite Hin. unfold bind.
  destruct (showSection_frame section true p) as (p1 & -> & _ & Hc & Hp & Hcur & _).
  unfold updateURL, modify. rewrite updateActiveNav_eq.
  eexists. split; [reflexivity|]. simpl. rewrite Hc, Hp, Hcur.
  assert (section ≠ "") by (intros ->; discriminate Hin).
  rewrite bool_decide_eq_false_2 by assumption. auto.
Qed.

(** A traversal adds no entry. *)
Lemma back_keeps_length p : history_length (back p).2 = history_length p.
Proof.
  unfold back. destruct (past p) as [|e behind] eqn:Hp; [reflexivity|].
  unfold onPopState.
  destruct (state e) as [section|]; [destruct (negb (String.eqb section ""))|].
  - destruct (showSection_frame section false
               (mkPage (document p) (currentSection p) behind e
                       (current p :: future p) (timers p)))
      as (p' & -> & _ & _ & Hpast & _ & Hfut).
    unfold history_length. simpl in *. rewrite Hpast, Hfut, Hp. simpl. lia.
  - unfold history_length. simpl. rewrite Hp. simpl. lia.
  - unfold history_length. simpl. rewrite Hp. simpl. lia.
Qed.

(** Going back to an entry that [navigateToSection] pushed shows the
    section of that entry again. *)
Lemma back_to_pushed_entry p e behind prev i :
  past p = e :: behind → state e = Some prev → prev ≠ "" →
  getElementById prev (document p) = Some i →
  currentSection (back p).2 = prev ∧ active prev (document (back p).2) = true ∧
  location_hash (back p).2 = hash e.
Proof.
  intros Hp Hst Hne Hi. unfold back. rewrite Hp. unfold onPopState. rewrite Hst.
  assert (String.eqb prev "" = false) as -> by (apply String.eqb_neq; exact Hne).
  set (q := mkPage _ _ _ _ _ _).
  change ((if negb false then showSection prev false else ret ()) q)
    with (showSection prev false q).
  split; [|split].
  - destruct (showSection_frame prev false q) as (p' & -> & _ & Hc & _). exact Hc.
  - destruct (showSection_frame prev false q) as (p' & -> & Hd & _). simpl.
    rewrite Hd. apply (shown_activates prev false _ i). exact Hi.
  - destruct (showSection_frame prev false q) as (p' & -> & _ & _ & _ & Hcur & _).
    unfold location_hash. simpl. rewrite Hcur. reflexivity.
Qed.

(** ** The claims about sections and history *)

(** C6, on the code: after a load without fragment on markup whose home
    section is active, [navigateToSection "faq"] pushes an entry with
    fragment "#faq"; going back returns to the initial entry without adding an
    entry, but the listener ignores its null state, so the FAQ section stays
    active and the home section is not restored. *)
Theorem C6_back_to_initial_entry_keeps_faq :
  let p0 := (construct sample_markup (fresh_entry "") [] []).2 in
  let p1 := (navigateToSection "faq" p0).2 in
  let p2 := (back p1).2 in
  (currentSection p0 = "home" ∧ active "home" (document p0) = true) ∧
  (location_hash p1 = "#faq" ∧ past p1 = [current p0] ∧ history_length p1 = 2%nat ∧
   active "faq" (document p1) = true) ∧
  (history_length p2 = 2%nat ∧ location_hash p2 = "" ∧ current p2 = current p0 ∧
   currentSection p2 = "faq" ∧ active "faq" (document p2) = true ∧
   active "home" (document p2) = false).
Proof. vm_compute. repeat split. Qed.

(** C7, as the code has it: on a load whose fragment is absent or names no
    known section, the constructor completes without error, the current
    section is "home" and the navigation highlighting is set for "home"; every
    element keeps its id and the active marker that the markup gave it, so
    the home section is active exactly when the markup marks it so. *)
Theorem C7_initial_route_defaults_to_home doc entry behind ahead :
  includes (substring_1 (hash entry)) = false →
  ∃ p, construct doc entry behind ahead = (Normal tt, p) ∧
       currentSection p = "home" ∧
       document p = highlighted "home" doc ∧
       Forall2 same_marker doc (document p) ∧
       active "home" (document p) = active "home" doc.
Proof.
  intros Hin. unfold construct, handleInitialRoute, location_hash. simpl.
  rewrite Hin, andb_false_r, updateActiveNav_eq.
  eexists. split; [reflexivity|]. simpl. repeat split.
  - apply highlighted_same_marker.
  - apply active_same_marker, highlighted_same_marker.
Qed.

Lemma C7_initial_route_defaults_to_home_witness :
  ∃ p, construct sample_markup (fresh_entry "#doesnotexist") [] [] = (Normal tt, p) ∧
       currentSection p = "home" ∧ active "home" (document p) = true.
Proof.
  destruct (C7_initial_route_defaults_to_home sample_markup
              (fresh_entry "#doesnotexist") [] [] eq_refl)
    as (p & Hp & Hc & _ & _ & Ha).
  exists p. split; [exact Hp|]. split; [exact Hc|]. rewrite Ha. reflexivity.
Defined.

(** C7 as stated fails: the fallback does not itself put the active marker
    on the home section; on markup without the marker it stays without it. *)
Lemma C7_fallback_does_not_mark_home :
  ¬ (∀ doc entry behind ahead,
       includes (substring_1 (hash entry)) = false →
       active "home" (document (construct doc entry behind ahead).2) = true).
Proof.
  intros H.
  specialize (H bare_markup (fresh_entry "#doesnotexist") [] [] eq_refl).
  vm_compute in H. discriminate H.
Qed.

(** C10: [navigateToSection] with an identifier outside the fixed set
    returns without error and leaves the whole page as it was: document,
    current section, fragment and history. *)
Theorem C10_unknown_section_is_a_noop section p :
  section ∉ sections →
  navigateToSection section p = (Normal tt, p).
Proof.
  intros Hout. unfold navigateToSection, includes.
  rewrite bool_decide_eq_false_2 by exact Hout. reflexivity.
Qed.

Lemma C10_unknown_section_is_a_noop_witness :
  let p := (construct sample_markup (fresh_entry "#faq") [] []).2 in
  navigateToSection "pricing" p = (Normal tt, p).
Proof.
  intros p. apply C10_unknown_section_is_a_noop.
  apply (bool_decide_unpack _). vm_compute. exact I.
Defined.

(** ** The FAQ accordion *)

Lemma is_open_close it : is_open (close_item it) = false.
Proof. apply contains_remove. Qed.

Lemma is_open_open it : is_open (open_item it) = true.
Proof. apply contains_add. Qed.

Lemma open_count_cons it faqItems :
  open_count (it :: faqItems)
  = ((if is_open it then 1 else 0) + open_count faqItems)%nat.
Proof.
  unfold open_count. destruct (is_open it) eqn:Ho.
  - rewrite filter_cons_True by exact Ho. reflexivity.
  - rewrite filter_cons_False by (rewrite Ho; discriminate). reflexivity.
Qed.

Lemma open_count_closed faqItems : open_count (close_item <$> faqItems) = 0%nat.
Proof.
  induction faqItems as [|it l IH]; [reflexivity|].
  rewrite fmap_cons, open_count_cons, is_open_close, IH. reflexivity.
Qed.

(** Opening one item among closed ones leaves exactly that one open. *)
Lemma open_count_alter faqItems i :
  open_count faqItems = 0%nat → (i < length faqItems)%nat →
  open_count (alter open_item i faqItems) = 1%nat.
Proof.
  revert i. induction faqItems as [|it l IH]; intros i H0 Hi; simpl in Hi; [lia|].
  rewrite open_count_cons in H0.
  destruct i as [|i].
  - change (alter open_item 0%nat (it :: l)) with (open_item it :: l).
    rewrite open_count_cons, is_open_open. lia.
  - change (alter open_item (S i) (it :: l)) with (it :: alter open_item i l).
    rewrite open_count_cons. destruct (is_open it); [lia|].
    rewrite IH by lia. reflexivity.
Qed.

(** What a click with a listener leaves open. *)
Lemma click_bound faqItems i it :
  faqItems !! i = Some it → bound it = true →
  if is_open it then open_count (onQuestionClick i faqItems) = 0%nat
  else open_count (onQuestionClick i faqItems) = 1%nat ∧
       is_open <$> onQuestionClick i faqItems !! i = Some true.
Proof.
  intros Hi Hb. unfold onQuestionClick. rewrite Hi, Hb.
  destruct (is_open it); simpl.
  - apply open_count_closed.
  - split.
    + apply open_count_alter; [apply open_count_closed|].
      rewrite length_fmap. apply lookup_lt_Some in Hi. exact Hi.
    + rewrite list_lookup_alter_eq, list_lookup_fmap, Hi. simpl.
      rewrite is_open_open. reflexivity.
Qed.

Lemma click_keeps_at_most_one faqItems i :
  (open_count faqItems ≤ 1)%nat → (open_count (onQuestionClick i faqItems) ≤ 1)%nat.
Proof.
  intros H. destruct (faqItems !! i) as [it|] eqn:Hi.
  - destruct (bound it) eqn:Hb.
    + pose proof (click_bound _ _ _ Hi Hb) as Hc.
      destruct (is_open it); [rewrite Hc | destruct Hc as [-> _]]; lia.
    + unfold onQuestionClick. rewrite Hi, Hb. exact H.
  - unfold onQuestionClick. rewrite Hi. exact H.
Qed.

Lemma clicks_keep_at_most_one js faqItems :
  (open_count faqItems ≤ 1)%nat → (open_count (clicks js faqItems) ≤ 1)%nat.
Proof.
  revert faqItems. induction js as [|j js IH]; intros faqItems H; [exact H|].
  apply IH, click_keeps_at_most_one, H.
Qed.

(** C8: a click on the question of a closed item leaves exactly that item
    open, whatever was open before; a click on the question of an open item
    leaves none open; hence any sequence of clicks keeps at most one item
    open once that holds, and it holds from the first click that has a
    listener onwards. *)
Theorem C8_at_most_one_faq_item_open faqItems :
  (∀ i it, faqItems !! i = Some it → bound it = true →
     if is_open it then open_count (onQuestionClick i faqItems) = 0%nat
     else open_count (onQuestionClick i faqItems) = 1%nat ∧
          is_open <$> onQuestionClick i faqItems !! i = Some true) ∧
  (∀ js, (open_count faqItems ≤ 1)%nat → (open_count (clicks js faqItems) ≤ 1)%nat) ∧
  (∀ i js, activation faqItems i → (open_count (clicks (i :: js) faqItems) ≤ 1)%nat).
Proof.
  split; [|split].
  - apply click_bound.
  - intros js. apply clicks_keep_at_most_one.
  - intros i js (it & Hi & Hb).
    change (clicks (i :: js) faqItems) with (clicks js (onQuestionClick i faqItems)).
    apply clicks_keep_at_most_one.
    pose proof (click_bound _ _ _ Hi Hb) as Hc.
    destruct (is_open it); [rewrite Hc | destruct Hc as [-> _]]; lia.
Qed.

Lemma C8_at_most_one_faq_item_open_witness :
  (open_count (onQuestionClick 1 sample_faq) = 0%nat) ∧
  (open_count (onQuestionClick 2 sample_faq) = 1%nat ∧
   is_open <$> onQuestionClick 2 sample_faq !! 2%nat = Some true) ∧
  (open_count (clicks [0; 2; 2; 1; 0]%nat sample_faq) ≤ 1)%nat ∧
  (open_count (clicks [2; 0; 0; 1]%nat sample_faq) ≤ 1)%nat.
Proof.
  destruct (C8_at_most_one_faq_item_open sample_faq) as (Hclick & Hseq & Hfirst).
  split; [|split; [|split]].
  - exact (Hclick 1%nat _ eq_refl eq_refl).
  - exact (Hclick 2%nat _ eq_refl eq_refl).
  - apply Hseq. vm_compute. lia.
  - apply Hfirst. eexists. split; reflexivity.
Defined.

End SpaFacts.

(** * Facts about the navigation manager *)

Module NavigationFacts.
Import Js Eff Dom DomFacts Navigation.
Local Open Scope eff_scope.

Lemma shown_after_open n :
  let n' := add_class "nav--open" (remove_class "hidden" n) in
  negb (has_class "hidden" n') && has_class "nav--open" n' = true.
Proof.
  unfold has_class. simpl.
  rewrite contains_add_ne by discriminate.
  rewrite contains_remove, contains_add. reflexivity.
Qed.

Lemma hidden_after_close n :
  let n' := remove_class "nav--open" (add_class "hidden" n) in
  negb (has_class "hidden" n') && has_class "nav--open" n' = false.
Proof.
  unfold has_class. simpl.
  rewrite contains_remove_ne by discriminate.
  rewrite contains_add. reflexivity.
Qed.

(** The three ways [openNavigation] ends, by the elements found. *)
Lemma openNavigation_eq s :
  openNavigation s =
  match navToggle s, nav s with
  | Some t, Some n =>
      (Normal tt,
       mkNav (Some (add_class "active" t))
             (Some (add_class "nav--open" (remove_class "hidden" n)))
             true "hidden" (header s) (lastScrollTop s) (scrolledTo s))
  | Some t, None =>
      (Throw (TypeError "Cannot read properties of null"),
       mkNav (Some (add_class "active" t)) None (isNavOpen s) (body_overflow s)
             (header s) (lastScrollTop s) (scrolledTo s))
  | None, _ => (Throw (TypeError "Cannot read properties of null"), s)
  end.
Proof.
  unfold openNavigation, bind, on_navToggle, on_nav, modify.
  destruct (navToggle s), (nav s); reflexivity.
Qed.

Lemma closeNavigation_eq s :
  closeNavigation s =
  match navToggle s, nav s with
  | Some t, Some n =>
      (Normal tt,
       mkNav (Some (remove_class "active" t))
             (Some (remove_class "nav--open" (add_class "hidden" n)))
             false "" (header s) (lastScrollTop s) (scrolledTo s))
  | Some t, None =>
      (Throw (TypeError "Cannot read properties of null"),
       mkNav (Some (remove_class "active" t)) None (isNavOpen s) (body_overflow s)
             (header s) (lastScrollTop s) (scrolledTo s))
  | None, _ => (Throw (TypeError "Cannot read properties of null"), s)
  end.
Proof.
  unfold closeNavigation, bind, on_navToggle, on_nav, modify.
  destruct (navToggle s), (nav s); reflexivity.
Qed.

Lemma open_establishes s :
  ((openNavigation s).1 = Normal tt →
   isNavOpen (openNavigation s).2 = true ∧
   panel_visible (openNavigation s).2 = true ∧
   scroll_locked (openNavigation s).2 = true) ∧
  (nav_invariant s → nav_invariant (openNavigation s).2).
Proof.
  rewrite openNavigation_eq. unfold nav_invariant, panel_visible, scroll_locked.
  destruct (navToggle s) as [t|], (nav s) as [n|] eqn:Hn; simpl;
    rewrite ?Hn; try (split; [discriminate | auto]).
  rewrite shown_after_open. auto.
Qed.

Lemma close_establishes s :
  ((closeNavigation s).1 = Normal tt →
   isNavOpen (closeNavigation s).2 = false ∧
   panel_visible (closeNavigation s).2 = false ∧
   scroll_locked (closeNavigation s).2 = false) ∧
  (nav_invariant s → nav_invariant (closeNavigation s).2).
Proof.
  rewrite closeNavigation_eq. unfold nav_invariant, panel_visible, scroll_locked.
  destruct (navToggle s) as [t|], (nav s) as [n|] eqn:Hn; simpl;
    rewrite ?Hn; try (split; [discriminate | auto]).
  rewrite hidden_after_close. auto.
Qed.

Lemma perform_invariant op s :
  ((perform op s).1 = Normal tt → nav_invariant (perform op s).2) ∧
  (nav_invariant s → nav_invariant (perform op s).2).
Proof.
  assert (Ho := open_establishes s). assert (Hc := close_establishes s).
  assert (Hopen : ((openNavigation s).1 = Normal tt → nav_invariant (openNavigation s).2)
                  ∧ (nav_invariant s → nav_invariant (openNavigation s).2)).
  { destruct Ho as [Ho1 Ho2]. split; [|exact Ho2].
    intros H. destruct (Ho1 H) as (H1 & H2 & H3).
    unfold nav_invariant. rewrite H1, H2, H3. reflexivity. }
  assert (Hclose : ((closeNavigation s).1 = Normal tt →
                    nav_invariant (closeNavigation s).2)
                   ∧ (nav_invariant s → nav_invariant (closeNavigation s).2)).
  { destruct Hc as [Hc1 Hc2]. split; [|exact Hc2].
    intros H. destruct (Hc1 H) as (H1 & H2 & H3).
    unfold nav_invariant. rewrite H1, H2, H3. reflexivity. }
  destruct op; simpl; [unfold toggleNavigation; destruct (isNavOpen s)|..]; assumption.
Qed.

Lemma perform_completes op s :
  is_Some (navToggle s) → is_Some (nav s) → (perform op s).1 = Normal tt.
Proof.
  intros [t Ht] [n Hn].
  destruct op; simpl; [unfold toggleNavigation; destruct (isNavOpen s)|..];
    rewrite ?openNavigation_eq, ?closeNavigation_eq, Ht, Hn; reflexivity.
Qed.

(** Every listener leaves the navigation state alone or runs one of the
    operations on it. *)
Lemma listen_only_operates l s :
  nav_state (listen l s).2 = nav_state s ∨
  nav_state (listen l s).2 = nav_state (closeNavigation s).2 ∨
  nav_state (listen l s).2 = nav_state (toggleNavigation s).2.
Proof.
  destruct l as [|in_nav in_toggle|key|innerWidth|targetId found|scrollTop]; simpl.
  - unfold onToggleClick. destruct (bool_decide _); auto.
  - unfold onDocumentClick. destruct (isNavOpen s); [|auto].
    unfold bind, on_nav, on_navToggle.
    destruct (nav s) as [n|] eqn:Hn; [|auto]. destruct s as [t n' o v h z sc].
    simpl in Hn. subst n'. simpl.
    destruct in_nav; simpl; [auto|].
    destruct t as [t|]; simpl; [|auto].
    destruct in_toggle; simpl; auto.
  - unfold onKeyDown. destruct (_ && _); auto.
  - unfold onResize. destruct (_ && _); auto.
  - unfold onAnchorClick. destruct found; [|auto].
    unfold bind, modify. destruct (isNavOpen s); [|auto].
    destruct (closeNavigation s) as [[[]|e|] s']; simpl; auto.
  - left. unfold onScroll, bind, modify. simpl.
    destruct (_ && _); reflexivity.
Qed.

Lemma nav_invariant_state s s' :
  nav_state s' = nav_state s → nav_invariant s → nav_invariant s'.
Proof.
  unfold nav_state, nav_invariant, panel_visible, scroll_locked.
  intros [= _ -> -> ->]. auto.
Qed.

(** ** The claim about the navigation state *)

(** C9: an operation (toggle, open, close) that completes leaves [isNavOpen]
    true exactly when the panel is visible and page scroll is locked, and it
    completes whenever both elements exist; one that stops on a missing
    element keeps the invariant it found.  Opening shows the panel and locks
    scroll, closing hides it and releases scroll.  Every listener either
    leaves the navigation state as it is or runs close or toggle on it, so it
    keeps the invariant too. *)
Theorem C9_navigation_state_invariant s :
  (∀ op, ((perform op s).1 = Normal tt → nav_invariant (perform op s).2) ∧
         (nav_invariant s → nav_invariant (perform op s).2) ∧
         (is_Some (navToggle s) → is_Some (nav s) → (perform op s).1 = Normal tt)) ∧
  ((openNavigation s).1 = Normal tt →
   isNavOpen (openNavigation s).2 = true ∧
   panel_visible (openNavigation s).2 = true ∧
   scroll_locked (openNavigation s).2 = true) ∧
  ((closeNavigation s).1 = Normal tt →
   isNavOpen (closeNavigation s).2 = false ∧
   panel_visible (closeNavigation s).2 = false ∧
   scroll_locked (closeNavigation s).2 = false) ∧
  (∀ l, (nav_state (listen l s).2 = nav_state s ∨
         nav_state (listen l s).2 = nav_state (closeNavigation s).2 ∨
         nav_state (listen l s).2 = nav_state (toggleNavigation s).2) ∧
        (nav_invariant s → nav_invariant (listen l s).2)).
Proof.
  split; [|split; [|split]].
  - intros op. destruct (perform_invariant op s) as [H1 H2].
    split; [exact H1|]. split; [exact H2 | apply perform_completes].
  - apply open_establishes.
  - apply close_establishes.
  - intros l. split; [apply listen_only_operates|].
    intros Hinv.
    destruct (listen_only_operates l s) as [H | [H | H]];
      apply (nav_invariant_state _ _ H).
    + exact Hinv.
    + apply (perform_invariant Close s), Hinv.
    + apply (perform_invariant Toggle s), Hinv.
Qed.

Lemma C9_navigation_state_invariant_witness :
  nav_invariant (perform Toggle sample_nav).2 ∧
  (isNavOpen (openNavigation sample_nav).2 = true ∧
   panel_visible (openNavigation sample_nav).2 = true ∧
   scroll_locked (openNavigation sample_nav).2 = true) ∧
  (isNavOpen (closeNavigation (openNavigation sample_nav).2).2 = false ∧
   panel_visible (closeNavigation (openNavigation sample_nav).2).2 = false ∧
   scroll_locked (closeNavigation (openNavigation sample_nav).2).2 = false) ∧
  nav_invariant (listen (KeyDown "Escape") (openNavigation sample_nav).2).2.
Proof.
  split; [|split; [|split]].
  - apply (C9_navigation_state_invariant sample_nav). reflexivity.
  - apply (C9_navigation_state_invariant sample_nav). reflexivity.
  - apply (C9_navigation_state_invariant (openNavigation sample_nav).2). reflexivity.
  - apply (C9_navigation_state_invariant (openNavigation sample_nav).2).
    apply (C9_navigation_state_invariant sample_nav). reflexivity.
Defined.

End NavigationFacts.

(** * More about the download manager *)

Module DownloadMore.
Import Js Eff Dom Download DownloadFacts More.
Local Open Scope eff_scope.
Local Arguments showNotification : simpl never.
Local Arguments rendering : simpl never.

(** ** The query string *)

Lemma component_char_byte c : all_chars component_char (form_byte c) = true.
Proof. destruct c as [[] [] [] [] [] [] [] []]; reflexivity. Qed.

Lemma all_chars_app P a b :
  all_chars P (a ++ b) = all_chars P a && all_chars P b.
Proof.
  induction a as [|c a IH]; [reflexivity|].
  rewrite string_app_cons. simpl. rewrite IH, andb_assoc. reflexivity.
Qed.

(** X1: whatever the device type and the hostname are, the first request of
    a resolution is the base endpoint followed by "?" and a query string that
    parses back to exactly the two parameters [type] and [site] with these
    values: no byte of either value can add, split or rename a parameter. *)
Theorem X1_hop1_query_parses_back env deviceType w :
  ∃ query rest,
    requests (getDownloadUrl env deviceType w).2
    = (requests w ++ JStr (apiBaseUrl ++ "?" ++ query) :: rest)%list ∧
    parse_query query = [("type", deviceType); ("site", hostname env)].
Proof.
  rewrite getDownloadUrl_resolve.
  destruct (requests_resolve env deviceType w) as (rest & Hreq & _).
  exists (URLSearchParams_toString [("type", deviceType); ("site", hostname env)]), rest.
  split; [exact Hreq | apply parse_query_toString].
Qed.

(** X2: an encoded query component consists only of ASCII letters and digits
    and the bytes "*", "-", ".", "_", "+" and "%"; in particular it holds no
    "&", "=", "#", space or byte above 127, and decoding it gives the value
    back. *)
Theorem X2_encoded_component_is_inert s :
  all_chars component_char (form_encode s) = true ∧
  form_decode (form_encode s) = s.
Proof.
  split; [|apply form_decode_encode].
  induction s as [|c s IH]; [reflexivity|].
  simpl. rewrite all_chars_app, component_char_byte, IH. reflexivity.
Qed.

(** ** Device detection *)

Lemma prefix_ci_spec p s :
  prefix_ci p s = true ↔ ∃ mid post, s = mid ++ post ∧ lowercase mid = p.
Proof.
  revert s. induction p as [|a p IH]; intros s.
  - split; [|destruct s; reflexivity]. intros _. exists "", s. split; reflexivity.
  - destruct s as [|b s]; simpl.
    + split; [discriminate|]. intros (mid & post & Hs & Hm).
      destruct mid; [discriminate Hm | discriminate Hs].
    + rewrite andb_true_iff, bool_decide_eq_true, IH. split.
      * intros (-> & mid & post & -> & <-). exists (String b mid), post.
        split; reflexivity.
      * intros (mid & post & Hs & Hm). destruct mid as [|c mid]; [discriminate|].
        rewrite string_app_cons in Hs. simpl in Hm.
        injection Hs as -> ->. injection Hm as <- <-. eauto.
Qed.

Lemma test_ci_spec p s : test_ci p s = true ↔ occurs_ci p s.
Proof.
  unfold occurs_ci. induction s as [|c s IH].
  - simpl. rewrite orb_false_r, prefix_ci_spec. split.
    + intros (mid & post & Hs & Hm). exists "", mid, post. split; assumption.
    + intros (pre & mid & post & Hs & Hm). exists mid, post. split; [|exact Hm].
      destruct pre; [exact Hs | discriminate Hs].
  - simpl. rewrite orb_true_iff, prefix_ci_spec, IH. split.
    + intros [(mid & post & Hs & Hm) | (pre & mid & post & Hs & Hm)].
      * exists "", mid, post. split; assumption.
      * exists (String c pre), mid, post. rewrite string_app_cons, <- Hs.
        split; [reflexivity | exact Hm].
    + intros (pre & mid & post & Hs & Hm). destruct pre as [|c' pre].
      * left. exists mid, post. split; assumption.
      * right. rewrite string_app_cons in Hs. injection Hs as -> ->.
        exists pre, mid, post. split; [reflexivity | exact Hm].
Qed.

(** X3: [detectDeviceType] answers "mobile" exactly when the user agent
    holds one of the words Mobile, Android, iPhone or iPad somewhere, in any
    mix of upper and lower case, and "pc" otherwise; it never answers
    anything else. *)
Theorem X3_detectDeviceType_matches_any_case env :
  (detectDeviceType env = "mobile" ↔
   occurs_ci "mobile" (userAgent env) ∨ occurs_ci "android" (userAgent env) ∨
   occurs_ci "iphone" (userAgent env) ∨ occurs_ci "ipad" (userAgent env)) ∧
  (detectDeviceType env = "mobile" ∨ detectDeviceType env = "pc").
Proof.
  unfold detectDeviceType. rewrite <- !test_ci_spec.
  destruct (test_ci "mobile" _), (test_ci "android" _), (test_ci "iphone" _),
    (test_ci "ipad" _); simpl; split; auto; split; auto; try discriminate;
    intros [H | [H | [H | H]]]; discriminate H.
Qed.

Lemma X3_detectDeviceType_matches_any_case_witness :
  detectDeviceType (mkEnv "sigua.io" "Mozilla/5.0 (Linux; ANDROID 14)"
                          (answers Hung Hung) (λ _, NoButton)) = "mobile".
Proof.
  apply (X3_detectDeviceType_matches_any_case
           (mkEnv "sigua.io" "Mozilla/5.0 (Linux; ANDROID 14)"
                  (answers Hung Hung) (λ _, NoButton))).
  right. left. exists "Mozilla/5.0 (Linux; ", "ANDROID", " 14)". split; reflexivity.
Defined.

(** ** The two hops *)

Section Hops.
Context (env : Env).

(** The resolution of a flow, by the outcomes of its two hops. *)
Lemma resolve_loading deviceType w :
  resolve env deviceType (loading w) =
  let w1 := add_request (hop1_url env deviceType) (loading w) in
  match hop "webhost" "未获取到有效的下载地址" (first_hop env deviceType w) with
  | Suspended => (Pending, w1)
  | Failed e => (Throw e, w1)
  | Signaled msg => (announced env msg JNull, posted env msg "error" w1)
  | Found webhost =>
      let w2 := add_request webhost w1 in
      match hop "go" "未获取到最终下载地址" (second_hop env w webhost) with
      | Suspended => (Pending, w2)
      | Failed e => (Throw e, w2)
      | Signaled msg => (announced env msg JNull, posted env msg "error" w2)
      | Found go => (Normal go, w2)
      end
  end.
Proof.
  unfold resolve, first_hop, second_hop. cbv zeta.
  rewrite length_add_request, requests_loading. reflexivity.
Qed.

Lemma requests_notified msg type w : requests (notified msg type w) = requests w.
Proof. reflexivity. Qed.

Lemma requests_add_click url w : requests (add_click url w) = requests w.
Proof. reflexivity. Qed.

Lemma requests_add_console e w : requests (add_console e w) = requests w.
Proof. reflexivity. Qed.

Lemma requests_add_request x w : requests (add_request x w) = (requests w ++ [x])%list.
Proof. reflexivity. Qed.


Lemma hop_suspended field missing o :
  hop field missing o = Suspended ↔ never_settles o.
Proof.
  unfold never_settles. split.
  - destruct o as [r| |]; simpl; try discriminate; [|auto].
    destruct (ok r) eqn:Hok; [|discriminate].
    destruct (json_body r) as [data|] eqn:Hbody.
    + destruct (get data field) as [e|v]; [discriminate|].
      destruct (truthy v); [discriminate|].
      destruct (js_and _ _) as [e|both]; [discriminate|].
      destruct (truthy both); [|discriminate].
      destruct (get data "msg"); discriminate.
    + destruct (body_fault r) eqn:Hfault; try discriminate. eauto 10.
  - intros [-> | (r & -> & Hok & Hbody & Hfault)]; [reflexivity|].
    simpl. rewrite Hok, Hbody, Hfault. reflexivity.
Qed.

(** A hop ends with the message of the server exactly when the server
    signals a failure. *)
Lemma hop_signaled field missing o msg :
  hop field missing o = Signaled msg ↔ server_failure field o msg.
Proof.
  split; [|apply hop_server].
  destruct o as [r| |]; simpl; try discriminate.
  destruct (ok r) eqn:Hok; [|discriminate].
  destruct (json_body r) as [data|] eqn:Hbody;
    [|destruct (body_fault r); discriminate].
  destruct (get data field) as [e|v] eqn:Hv; [discriminate|].
  destruct (truthy v) eqn:Hvt; [discriminate|].
  destruct (get data "code") as [e|code] eqn:Hc; simpl; [discriminate|].
  destruct (truthy code) eqn:Hct; simpl.
  - destruct (get data "msg") as [e|m] eqn:Hm; [discriminate|].
    destruct (truthy m) eqn:Hmt; [|discriminate].
    intros [= <-]. exists r, data, v, code. auto 10.
  - rewrite Hct. discriminate.
Qed.

Lemma hop_failure field missing o e :
  failure field missing o e → hop field missing o = Failed e.
Proof.
  intros [[-> ->] | [(r & -> & Hok & ->) | [(r & -> & Hok & Hb & Hf & ->)
         | [(r & -> & Hok & Hb & Hf & ->) | [(r & -> & Hok & Hb & ->) | [H ->]]]]]];
    simpl; rewrite ?Hok, ?Hb, ?Hf; try reflexivity.
  destruct H as (r & data & v & both & -> & Hok & Hbody & Hv & Hvf & Hb & Hbf).
  simpl. rewrite Hok, Hbody, Hv, Hvf, Hb, Hbf. reflexivity.
Qed.

End Hops.



(** X5: hop 2 is requested exactly when hop 1 answered 2xx with a truthy
    [webhost], and its input is that value as it came, with nothing added;
    otherwise the endpoint request is the only one the flow makes. *)
Theorem X5_hop2_goes_to_webhost_only env deviceType w :
  (∀ webhost, forwarded env deviceType w webhost →
     requests (handleDownload env deviceType w).2
     = (requests w ++ [hop1_url env deviceType; webhost])%list) ∧
  ((∀ webhost, ¬ forwarded env deviceType w webhost) →
     requests (handleDownload env deviceType w).2
     = (requests w ++ [hop1_url env deviceType])%list).
Proof.
  rewrite handleDownload_flow.
  assert (Hreq : requests (flow busy_500 env deviceType w).2
                 = (requests w ++ hop1_url env deviceType ::
                    match hop "webhost" "未获取到有效的下载地址"
                              (first_hop env deviceType w) with
                    | Found webhost => [webhost]
                    | _ => []
                    end)%list).
  { unfold flow. rewrite resolve_loading. cbv zeta.
    destruct (hop "webhost" _ _) as [|e|msg|webhost];
      [| | | destruct (hop "go" _ _) as [|e|msg|go]];
      repeat match goal with
             | |- context [announced env ?m JNull] =>
                 destruct (announced env m JNull) as [?| |]
             | |- context [truthy ?v] => destruct (truthy v)
             | |- context [converts ?v] => destruct (converts v)
             end;
      cbn [fst snd];
      repeat rewrite ?requests_restored, ?requests_posted, ?requests_notified,
        ?requests_add_click, ?requests_add_console, ?requests_add_request,
        ?requests_loading;
      rewrite <- ?app_assoc; reflexivity. }
  rewrite Hreq. split.
  - intros webhost Hf. rewrite (hop_forwarded _ _ _ _ _ Hf). reflexivity.
  - intros Hnone. destruct (hop "webhost" _ _) as [|e|msg|webhost] eqn:H1;
      try reflexivity.
    destruct (Hnone webhost). exact (hop_found _ _ _ _ H1).
Qed.

Lemma X5_hop2_goes_to_webhost_only_witness :
  requests (handleDownload
              (desktop (json_200 (JObj [("webhost", JNum 7)])) (http 404))
              "pc" sample_page).2
  = [JStr "https://a.hkdownload.com/get.php?type=pc&site=sigua.io"; JNum 7] ∧
  requests (handleDownload (desktop (json_200 (JObj [("webhost", JStr "")])) (http 404))
              "pc" sample_page).2
  = [JStr "https://a.hkdownload.com/get.php?type=pc&site=sigua.io"].
Proof.
  split.
  - apply (X5_hop2_goes_to_webhost_only
             (desktop (json_200 (JObj [("webhost", JNum 7)])) (http 404))
             "pc" sample_page).
    do 2 eexists. repeat split; reflexivity.
  - apply (X5_hop2_goes_to_webhost_only
             (desktop (json_200 (JObj [("webhost", JStr "")])) (http 404))
             "pc" sample_page).
    intros webhost (r & data & Hr & _ & Hb & Hg & Ht).
    injection Hr as <-. injection Hb as <-. injection Hg as <-. discriminate Ht.
Defined.

(** ** Every outcome of a flow *)

Section Outcomes.
Context (env : Env).

Lemma flow_report generic deviceType w :
  rendering env generic = WithButton →
  (flow generic env deviceType w).1
  = (report env generic (deciding_hop env deviceType w)).1.1.1 ∧
  body (flow generic env deviceType w).2
  = (body w ++ (report env generic (deciding_hop env deviceType w)).1.1.2)%list ∧
  console (flow generic env deviceType w).2
  = (console w ++ (report env generic (deciding_hop env deviceType w)).1.2)%list ∧
  clicked (flow generic env deviceType w).2
  = (clicked w ++ (report env generic (deciding_hop env deviceType w)).2)%list.
Proof.
  intros Hg. unfold flow, deciding_hop. rewrite resolve_loading. cbv zeta.
  destruct (hop "webhost" _ _) as [|e|msg|webhost].
  - cbn. rewrite !app_nil_r. auto.
  - unfold report, announced, posted. rewrite Hg. cbn. rewrite app_nil_r. auto.
  - unfold report, announced, posted.
    destruct (rendering env msg); rewrite ?Hg; cbn; rewrite ?app_nil_r, <- ?app_assoc;
      auto.
  - destruct (hop "go" _ _) as [|e|msg|go] eqn:H2.
    + cbn. rewrite !app_nil_r. auto.
    + unfold report, announced, posted. rewrite Hg. cbn. rewrite app_nil_r. auto.
    + unfold report, announced, posted.
      destruct (rendering env msg); rewrite ?Hg; cbn;
        rewrite ?app_nil_r, <- ?app_assoc; auto.
    + destruct (hop_found _ _ _ _ H2) as (r & data & _ & _ & _ & _ & ->).
      unfold report, announced, posted. destruct (converts go); rewrite ?Hg; cbn;
        rewrite ?app_nil_r; auto.
Qed.

Lemma console_of_failure generic deviceType w e :
  rendering env generic = WithButton →
  deciding_hop env deviceType w = Failed e →
  console (flow generic env deviceType w).2 = (console w ++ [e])%list.
Proof.
  intros Hg He. destruct (flow_report generic deviceType w Hg) as (_ & _ & Hc & _).
  rewrite Hc, He. reflexivity.
Qed.

Lemma deciding_hop1 deviceType w h :
  hop "webhost" "未获取到有效的下载地址" (first_hop env deviceType w) = h →
  (∀ v, h ≠ Found v) → deciding_hop env deviceType w = h.
Proof.
  intros <- Hn. unfold deciding_hop.
  destruct (hop "webhost" _ _) as [| | |v]; try reflexivity. destruct (Hn v eq_refl).
Qed.

Lemma deciding_hop2 deviceType w webhost :
  forwarded env deviceType w webhost →
  deciding_hop env deviceType w
  = hop "go" "未获取到最终下载地址" (second_hop env w webhost).
Proof.
  intros Hf. unfold deciding_hop. rewrite (hop_forwarded _ _ _ _ _ Hf). reflexivity.
Qed.

End Outcomes.

(** X6: the error that a failed flow logs tells the kind of failure, in the
    same way at both hops: a rejected request logs the network error; a
    status outside 2xx logs "HTTP error! status: " followed by that status,
    the same text at either hop, and the body is not read; a 2xx body that is
    not JSON logs the syntax error, one that breaks off the network error and
    one that is [null] the type error of the property read.  Only a 2xx JSON
    body with neither the expected field nor the [code]/[msg] pair names the
    hop: "未获取到有效的下载地址" at hop 1 and "未获取到最终下载地址" at
    hop 2.  In each case that error is the only one logged. *)
Theorem X6_logged_error_tells_the_failure env deviceType w e :
  (failure "webhost" "未获取到有效的下载地址" (first_hop env deviceType w) e →
   console (handleDownload env deviceType w).2 = (console w ++ [e])%list) ∧
  (∀ webhost, forwarded env deviceType w webhost →
   failure "go" "未获取到最终下载地址" (second_hop env w webhost) e →
   console (handleDownload env deviceType w).2 = (console w ++ [e])%list).
Proof.
  rewrite handleDownload_flow. split.
  - intros H. apply console_of_failure; [reflexivity|].
    apply deciding_hop1; [apply hop_failure, H | discriminate].
  - intros webhost Hf H. apply console_of_failure; [reflexivity|].
    rewrite (deciding_hop2 _ _ _ _ Hf). apply hop_failure, H.
Qed.

Lemma X6_logged_error_tells_the_failure_witness :
  console (handleDownload (desktop (http 503) Hung) "pc" sample_page).2
  = [Error "HTTP error! status: 503"] ∧
  console (handleDownload (desktop (json_200 (JObj [("code", JNum 0)])) Hung)
             "pc" sample_page).2
  = [Error "未获取到有效的下载地址"] ∧
  console (handleDownload
             (desktop (json_200 (JObj [("webhost", JStr "https://x/y")])) Rejected)
             "pc" sample_page).2
  = [NetworkError] ∧
  console (handleDownload
             (desktop (json_200 (JObj [("webhost", JStr "https://x/y")])) (http 503))
             "pc" sample_page).2
  = [Error "HTTP error! status: 503"] ∧
  console (handleDownload
             (desktop (json_200 (JObj [("webhost", JStr "https://x/y")]))
                      (json_200 (JArr [])))
             "pc" sample_page).2
  = [Error "未获取到最终下载地址"].
Proof.
  split; [|split; [|split; [|split]]].
  - apply (X6_logged_error_tells_the_failure (desktop (http 503) Hung) "pc" sample_page).
    right. left. eexists. repeat split; reflexivity.
  - apply (X6_logged_error_tells_the_failure
             (desktop (json_200 (JObj [("code", JNum 0)])) Hung) "pc" sample_page).
    do 5 right. split; [|reflexivity]. do 4 eexists. repeat split; reflexivity.
  - apply (X6_logged_error_tells_the_failure
             (desktop (json_200 (JObj [("webhost", JStr "https://x/y")])) Rejected)
             "pc" sample_page) with (webhost := JStr "https://x/y").
    + do 2 eexists. repeat split; reflexivity.
    + left. split; reflexivity.
  - apply (X6_logged_error_tells_the_failure
             (desktop (json_200 (JObj [("webhost", JStr "https://x/y")])) (http 503))
             "pc" sample_page) with (webhost := JStr "https://x/y").
    + do 2 eexists. repeat split; reflexivity.
    + right. left. eexists. repeat split; reflexivity.
  - apply (X6_logged_error_tells_the_failure
             (desktop (json_200 (JObj [("webhost", JStr "https://x/y")]))
                      (json_200 (JArr [])))
             "pc" sample_page) with (webhost := JStr "https://x/y").
    + do 2 eexists. repeat split; reflexivity.
    + do 5 right. split; [|reflexivity]. do 4 eexists. repeat split; reflexivity.
Defined.

Lemma deciding_hop_suspended env deviceType w :
  deciding_hop env deviceType w = Suspended ↔ hung env deviceType w.
Proof.
  unfold deciding_hop, hung.
  destruct (hop "webhost" _ _) as [|e|msg|webhost] eqn:H1.
  - apply hop_suspended in H1. tauto.
  - split; [discriminate|]. intros [H | (wh & Hf & _)].
    + apply (hop_suspended "webhost" "未获取到有效的下载地址") in H. congruence.
    + rewrite (hop_forwarded _ _ _ _ _ Hf) in H1. discriminate.
  - split; [discriminate|]. intros [H | (wh & Hf & _)].
    + apply (hop_suspended "webhost" "未获取到有效的下载地址") in H. congruence.
    + rewrite (hop_forwarded _ _ _ _ _ Hf) in H1. discriminate.
  - rewrite hop_suspended. split.
    + intros H. right. exists webhost. split; [|exact H].
      exact (hop_found _ _ _ _ H1).
    + intros [H | (wh & Hf & H)].
      * apply (hop_suspended "webhost" "未获取到有效的下载地址") in H. congruence.
      * rewrite (hop_forwarded _ _ _ _ _ Hf) in H1. injection H1 as <-. exact H.
Qed.

(** X7: a flow stays suspended exactly when a promise it awaits never
    settles: that of a request (no timeout is set), or that of reading the
    body of a 2xx response, at either hop.  It has then shown no
    notification, logged no error and clicked no anchor. *)
Theorem X7_hung_request_suspends_silently env deviceType w :
  ((handleDownload env deviceType w).1 = Pending ↔ hung env deviceType w) ∧
  (hung env deviceType w →
   body (handleDownload env deviceType w).2 = body w ∧
   console (handleDownload env deviceType w).2 = console w ∧
   clicked (handleDownload env deviceType w).2 = clicked w).
Proof.
  rewrite handleDownload_flow.
  destruct (flow_report env busy_500 deviceType w eq_refl) as (Hc & Hb & Hk & Hd).
  pose proof (deciding_hop_suspended env deviceType w) as Hiff.
  split.
  - rewrite Hc, <- Hiff. unfold report.
    destruct (deciding_hop env deviceType w) as [|e|msg|go];
      [tauto | | destruct (rendering env msg) | destruct (converts go)];
      split; discriminate.
  - intros Hh. apply Hiff in Hh. rewrite Hb, Hk, Hd, Hh. simpl.
    rewrite !app_nil_r. auto.
Qed.

Lemma X7_hung_request_suspends_silently_witness :
  let env := desktop (json_200 (JObj [("webhost", JStr "https://x/y")]))
                     (Resolved (mkResponse 200 None Unending)) in
  (handleDownload env "pc" sample_page).1 = Pending ∧
  body (handleDownload env "pc" sample_page).2 = [] ∧
  console (handleDownload env "pc" sample_page).2 = [] ∧
  clicked (handleDownload env "pc" sample_page).2 = [].
Proof.
  intros env.
  assert (H : hung env "pc" sample_page).
  { right. exists (JStr "https://x/y"). split.
    - do 2 eexists. repeat split; reflexivity.
    - right. eexists. repeat split; reflexivity. }
  split.
  - apply (X7_hung_request_suspends_silently env "pc" sample_page). exact H.
  - apply (X7_hung_request_suspends_silently env "pc" sample_page). exact H.
Defined.

Lemma deciding_hop_signaled env deviceType w msg :
  deciding_hop env deviceType w = Signaled msg ↔ flow_refused env deviceType w msg.
Proof.
  unfold deciding_hop, flow_refused.
  destruct (hop "webhost" _ _) as [|e|m|webhost] eqn:H1.
  - split; [discriminate|]. intros [H | (wh & Hf & _)].
    + apply (hop_signaled "webhost" "未获取到有效的下载地址") in H. congruence.
    + rewrite (hop_forwarded _ _ _ _ _ Hf) in H1. discriminate.
  - split; [discriminate|]. intros [H | (wh & Hf & _)].
    + apply (hop_signaled "webhost" "未获取到有效的下载地址") in H. congruence.
    + rewrite (hop_forwarded _ _ _ _ _ Hf) in H1. discriminate.
  - split.
    + intros [= ->]. left. apply hop_signaled in H1. exact H1.
    + intros [H | (wh & Hf & _)].
      * apply (hop_signaled "webhost" "未获取到有效的下载地址") in H. congruence.
      * rewrite (hop_forwarded _ _ _ _ _ Hf) in H1. discriminate.
  - rewrite hop_signaled. split.
    + intros H. right. exists webhost. split; [|exact H].
      exact (hop_found _ _ _ _ H1).
    + intros [H | (wh & Hf & H)].
      * apply (hop_signaled "webhost" "未获取到有效的下载地址") in H. congruence.
      * rewrite (hop_forwarded _ _ _ _ _ Hf) in H1. injection H1 as <-. exact H.
Qed.

(** X8: a flow that has settled has told the user something, and a
    suspended one nothing.  What it adds after the earlier notifications,
    which stay as they were, is the success notification alone, or the
    generic error notification alone, or what a refusal of the server leaves:
    the message of the server alone when it renders with its close button,
    that message followed by the generic error when it renders without the
    button, and the generic error alone when it cannot be converted to a
    string.  So two notifications are added exactly when the server refused
    with a message that renders without its close button. *)
Theorem X8_settled_flow_is_never_silent env deviceType w :
  ∃ added,
    body (handleDownload env deviceType w).2 = (body w ++ added)%list ∧
    (settled (handleDownload env deviceType w).1 = false → added = []) ∧
    (settled (handleDownload env deviceType w).1 = true →
     added = [note (JStr "下载已开始") "success"] ∨
     added = [note busy_500 "error"] ∨
     ∃ msg, flow_refused env deviceType w msg ∧
            (rendering env msg = WithButton ∧ added = [note msg "error"] ∨
             rendering env msg = NoButton ∧
             added = [note msg "error"; note busy_500 "error"])) ∧
    (∀ msg, flow_refused env deviceType w msg →
       settled (handleDownload env deviceType w).1 = true ∧
       added = match rendering env msg with
               | WithButton => [note msg "error"]
               | NoButton => [note msg "error"; note busy_500 "error"]
               | Unprintable => [note busy_500 "error"]
               end).
Proof.
  rewrite handleDownload_flow.
  destruct (flow_report env busy_500 deviceType w eq_refl) as (Hc & Hb & _).
  eexists. split; [exact Hb|]. rewrite Hc.
  pose proof (deciding_hop_signaled env deviceType w) as Hsig.
  destruct (deciding_hop env deviceType w) as [|e|msg|go] eqn:Hd.
  - split; [reflexivity|]. split; [discriminate|].
    intros m Hm. apply Hsig in Hm. discriminate.
  - split; [discriminate|]. split; [auto|].
    intros m Hm. apply Hsig in Hm. discriminate.
  - assert (Hr : flow_refused env deviceType w msg) by (apply Hsig; reflexivity).
    unfold report. split; [|split].
    + destruct (rendering env msg); discriminate.
    + intros _. destruct (rendering env msg) eqn:Hm; cbn; eauto 10.
    + intros m Hm. apply Hsig in Hm. injection Hm as <-.
      destruct (rendering env msg); cbn; auto.
  - unfold report. split; [|split].
    + destruct (converts go); discriminate.
    + intros _. destruct (converts go); cbn; auto.
    + intros m Hm. apply Hsig in Hm. discriminate.
Qed.

(** ** Notifications *)

Lemma alter_at {A} (f : A → A) (l : list A) i x :
  l !! i = Some x → alter f i l = <[i := f x]> l.
Proof.
  revert i. induction l as [|y l IH]; intros [|i] Hi; try discriminate.
  - injection Hi as ->. reflexivity.
  - cbn in *. f_equal. apply IH, Hi.
Qed.

Lemma removeNotification_at n x w :
  body w !! n = Some x →
  removeNotification n w
  = (Normal tt,
     add_timer 300 (DetachNotification n)
       (set_body (λ b, <[n := mkNotification (message x) (kind x)
                                 "slideOutRight 0.3s ease-in" (attached x)]> b) w)).
Proof.
  intros Hx. unfold removeNotification, bind, modify. rewrite Hx.
  unfold set_body. rewrite (alter_at _ _ _ _ Hx). reflexivity.
Qed.

Lemma detach_at n x w :
  body w !! n = Some x →
  detach n w
  = (Normal tt,
     set_body (λ b, <[n := mkNotification (message x) (kind x) (animation x) false]> b) w).
Proof.
  intros Hx. unfold detach, modify. rewrite Hx.
  unfold set_body. rewrite (alter_at _ _ _ _ Hx). reflexivity.
Qed.

Lemma lookup_last {A} (l : list A) (x : A) : (l ++ [x])%list !! length l = Some x.
Proof. rewrite lookup_app_r by reflexivity. rewrite Nat.sub_diag. reflexivity. Qed.

Lemma insert_last {A} (l : list A) (x y : A) :
  <[length l := y]> (l ++ [x])%list = (l ++ [y])%list.
Proof.
  rewrite <- (Nat.add_0_r (length l)) at 1. rewrite insert_app_r. reflexivity.
Qed.

(** X9: a notification whose message renders with its close button is
    appended after the earlier ones, which stay as they were, with a timer of
    5000 ms; when that timer fires the notification takes the exit animation
    and a timer of 300 ms is set, and when this one fires the notification
    leaves the page. *)
Theorem X9_notification_leaves_after_its_delay env msg type w :
  rendering env msg = WithButton →
  ∃ w1 w2 w3,
    showNotification env msg type w = (Normal tt, w1) ∧
    body w1 = (body w ++ [mkNotification msg type "slideInRight 0.3s ease-out" true])%list ∧
    timers w1 = (timers w ++ [(5000, RemoveNotification (length (body w)))])%list ∧
    run_timer (RemoveNotification (length (body w))) w1 = (Normal tt, w2) ∧
    body w2 = (body w ++ [mkNotification msg type "slideOutRight 0.3s ease-in" true])%list ∧
    timers w2 = (timers w1 ++ [(300, DetachNotification (length (body w)))])%list ∧
    run_timer (DetachNotification (length (body w))) w2 = (Normal tt, w3) ∧
    body w3 = (body w ++ [mkNotification msg type "slideOutRight 0.3s ease-in" false])%list.
Proof.
  intros Hm. rewrite showNotification_eq. unfold announced, posted. rewrite Hm.
  unfold run_timer.
  eexists. eexists. eexists. split; [reflexivity|]. split; [reflexivity|].
  split; [reflexivity|]. split.
  { apply (removeNotification_at _ (note msg type)). apply lookup_last. }
  split; [cbn; apply insert_last|]. split; [reflexivity|]. split.
  { eapply detach_at. cbn. rewrite insert_last. apply lookup_last. }
  cbn. rewrite !insert_last. reflexivity.
Qed.

Lemma X9_notification_leaves_after_its_delay_witness :
  ∃ w1 w2 w3,
    showNotification (desktop Hung Hung) (JStr "下载已开始") "success" sample_page
    = (Normal tt, w1) ∧
    run_timer (RemoveNotification 0) w1 = (Normal tt, w2) ∧
    run_timer (DetachNotification 0) w2 = (Normal tt, w3) ∧
    body w3 = [mkNotification (JStr "下载已开始") "success"
                              "slideOutRight 0.3s ease-in" false].
Proof.
  destruct (X9_notification_leaves_after_its_delay (desktop Hung Hung)
              (JStr "下载已开始") "success" sample_page eq_refl)
    as (w1 & w2 & w3 & H1 & _ & _ & H2 & _ & _ & H3 & H4).
  exists w1, w2, w3. auto.
Defined.

(** X10: a notification that sits in the body can be removed twice, as
    happens when it is dismissed by its close button and its own timer fires
    later: the first removal and its inner timer set the exit animation and
    take it off the page, keeping its message and its type and leaving every
    other notification as it is; the second removal and its inner timer find
    it detached already and leave all notifications as they are.  Each removal
    sets one timer of 300 ms, and none of the four steps throws. *)
Theorem X10_removal_is_local_and_repeatable n x w :
  body w !! n = Some x →
  ∃ w1 w2 w3 w4,
    removeNotification n w = (Normal tt, w1) ∧ detach n w1 = (Normal tt, w2) ∧
    removeNotification n w2 = (Normal tt, w3) ∧ detach n w3 = (Normal tt, w4) ∧
    body w2 = <[n := mkNotification (message x) (kind x)
                       "slideOutRight 0.3s ease-in" false]> (body w) ∧
    body w3 = body w2 ∧ body w4 = body w2 ∧
    timers w4 = (timers w ++ [(300, DetachNotification n);
                              (300, DetachNotification n)])%list.
Proof.
  intros Hx.
  assert (Hn : (n < length (body w))%nat) by (apply lookup_lt_is_Some; eauto).
  eexists. eexists. eexists. eexists.
  split; [exact (removeNotification_at _ _ _ Hx)|].
  split; [eapply detach_at; cbn; apply list_lookup_insert_eq, Hn|].
  split; [eapply removeNotification_at; cbn; apply list_lookup_insert_eq;
          rewrite length_insert; exact Hn|].
  split; [eapply detach_at; cbn; apply list_lookup_insert_eq;
          rewrite !length_insert; exact Hn|].
  cbn. rewrite !list_insert_insert_eq, <- app_assoc. auto.
Qed.

Lemma X10_removal_is_local_and_repeatable_witness :
  let w := (showNotification (desktop Hung Hung) (JStr "a") "error"
              (showNotification (desktop Hung Hung) (JStr "b") "error" sample_page).2).2 in
  ∃ w1 w2 w3 w4,
    removeNotification 1 w = (Normal tt, w1) ∧ detach 1 w1 = (Normal tt, w2) ∧
    removeNotification 1 w2 = (Normal tt, w3) ∧ detach 1 w3 = (Normal tt, w4) ∧
    body w4 = [note (JStr "b") "error";
               mkNotification (JStr "a") "error" "slideOutRight 0.3s ease-in" false].
Proof.
  intros w.
  destruct (X10_removal_is_local_and_repeatable 1 (note (JStr "a") "error") w eq_refl)
    as (w1 & w2 & w3 & w4 & H1 & H2 & H3 & H4 & Hb & _ & Hb4 & _).
  exists w1, w2, w3, w4. rewrite Hb4, Hb. auto.
Defined.

(** ** The click listener *)

(** X23: a click within the PC button starts a flow whose first request
    carries [type=pc], whatever else the click is within; within the mobile
    button (and not the PC one) it carries [type=mobile]; within a [.getDown]
    element alone it carries the detected device type; a click within none
    of the three requests nothing and leaves the page as it is. *)
Theorem X23_click_chooses_the_device_type env click w :
  ∃ deviceType,
    (in_pc click = true → deviceType = "pc") ∧
    (in_pc click = false → in_mobile click = true → deviceType = "mobile") ∧
    (in_pc click = false → in_mobile click = false → in_getDown click = true →
     deviceType = detectDeviceType env) ∧
    (in_pc click || in_mobile click || in_getDown click = true →
     ∃ rest, requests (onClick env click w).2
             = (requests w ++ hop1_url env deviceType :: rest)%list) ∧
    (in_pc click || in_mobile click || in_getDown click = false →
     onClick env click w = (Normal tt, w)).
Proof.
  unfold onClick. destruct click as [[] [] []]; simpl;
    [exists "pc" | exists "pc" | exists "pc" | exists "pc" | exists "mobile"
     | exists "mobile" | exists (detectDeviceType env) | exists "pc"];
    repeat split; try discriminate; intros _;
    rewrite ?handleDownload_flow, ?handleOriginalDownload_flow;
    match goal with
    | |- context [flow ?g env ?d w] =>
        destruct (requests_flow env g d w) as (rest & Hreq & _);
        exists rest; exact Hreq
    end.
Qed.

Lemma X23_click_chooses_the_device_type_witness :
  ∃ rest, requests (onClick (phone Hung Hung) (mkClick false false true) sample_page).2
          = JStr "https://a.hkdownload.com/get.php?type=mobile&site=sigua.io" :: rest.
Proof.
  destruct (X23_click_chooses_the_device_type (phone Hung Hung)
              (mkClick false false true) sample_page) as (d & _ & _ & Hd & Hreq & _).
  rewrite (Hd eq_refl eq_refl eq_refl) in Hreq. exact (Hreq eq_refl).
Defined.

End DownloadMore.

(** * More about the single-page manager *)

Module SpaMore.
Import Js Eff Dom DomFacts Spa SpaFacts More.
Local Open Scope eff_scope.

(** ** Sections *)

Lemma shown_lookup section animate doc j :
  shown section animate doc !! j
  = shown_element animate (getElementById section doc) j <$> doc !! j.
Proof.
  unfold shown, shown_element, getElementById.
  set (hide := λ s : Element, _).
  assert (Hhide : ∀ e, by_id section
                         (if has_class "section" e then hide e else e) = by_id section e).
  { intros e. destruct (has_class "section" e); [|reflexivity].
    unfold hide. destruct animate; reflexivity. }
  cbv zeta. unfold for_each.
  destruct (bool_decide (section = "")).
  { rewrite list_lookup_fmap. destruct (doc !! j); reflexivity. }
  rewrite (find_index_fmap _ _ _ Hhide).
  destruct (find_index (by_id section) doc) as [i|].
  - destruct animate; rewrite !list_lookup_alter, !list_lookup_fmap;
      repeat case_decide; try case_bool_decide; simplify_eq;
      destruct (doc !! _); reflexivity.
  - rewrite list_lookup_fmap. destruct (doc !! j); reflexivity.
Qed.

Lemma shown_element_classes animate target j e c :
  c ≠ "section--active" →
  has_class c (shown_element animate target j e) = has_class c e.
Proof.
  intros Hc. unfold shown_element. cbv zeta.
  destruct (has_class "section" e), (bool_decide (target = Some j)), animate;
    unfold has_class; simpl;
    rewrite ?contains_add_ne, ?contains_remove_ne by exact Hc; reflexivity.
Qed.

Lemma shown_element_marker animate target j e :
  has_class "section" e = true →
  has_class "section--active" (shown_element animate target j e)
  = bool_decide (target = Some j).
Proof.
  intros Hs. unfold shown_element. cbv zeta. rewrite Hs.
  destruct (bool_decide (target = Some j)), animate; unfold has_class; simpl;
    rewrite ?contains_add, ?contains_remove; reflexivity.
Qed.

(** X11: after [showSection], whatever was active before, a [.section]
    element carries the active marker exactly when it is the element with the
    requested id; when no element has that id, no [.section] element is left
    active.  Every other class of every element is as it was, the navigation
    highlighting included. *)
Theorem X11_showSection_leaves_one_section_active section animate p j e' :
  document (showSection section animate p).2 !! j = Some e' →
  (has_class "section" e' = true →
   has_class "section--active" e'
   = bool_decide (getElementById section (document p) = Some j)) ∧
  (∃ e, document p !! j = Some e ∧ el_id e' = el_id e ∧
        ∀ c, c ≠ "section--active" → has_class c e' = has_class c e).
Proof.
  destruct (showSection_frame section animate p) as (p' & -> & Hd & _).
  simpl. rewrite Hd, shown_lookup.
  destruct (document p !! j) as [e|] eqn:Hj; [|discriminate].
  intros [= <-]. split.
  - intros Hs. rewrite shown_element_classes in Hs by discriminate.
    apply shown_element_marker, Hs.
  - exists e. split; [reflexivity|]. split.
    + unfold shown_element. cbv zeta.
      destruct (has_class "section" e), (bool_decide _), animate; reflexivity.
    + intros c Hc. apply shown_element_classes, Hc.
Qed.

Lemma X11_showSection_leaves_one_section_active_witness :
  let p := (construct sample_markup (fresh_entry "") [] []).2 in
  has_class "section--active" (section_el "home" []) = false ∧
  has_class "section--active"
    (add_class "section--active" (set_style "transform" "translateY(20px)"
       (set_style "opacity" "0" (section_el "faq" [])))) = true.
Proof.
  intros p. split.
  - apply (X11_showSection_leaves_one_section_active "faq" true p 4%nat
             (set_style "transform" "translateY(20px)"
                (set_style "opacity" "0" (section_el "home" []))) eq_refl).
    reflexivity.
  - apply (X11_showSection_leaves_one_section_active "faq" true p 6%nat
             (add_class "section--active" (set_style "transform" "translateY(20px)"
                (set_style "opacity" "0" (section_el "faq" [])))) eq_refl).
    reflexivity.
Defined.

(** ** Navigation highlighting *)

Lemma highlighted_lookup section doc j :
  highlighted section doc !! j
  = highlighted_element (find_index (by_attr "data-section" section) doc) j <$> doc !! j.
Proof.
  unfold highlighted, highlighted_element. cbv zeta. unfold for_each.
  rewrite find_index_fmap
    by (intros e; destruct (has_class "nav__link" e); reflexivity).
  destruct (find_index _ doc) as [i|].
  - rewrite list_lookup_alter, !list_lookup_fmap.
    repeat case_decide; try case_bool_decide; simplify_eq;
      destruct (doc !! _); reflexivity.
  - rewrite list_lookup_fmap. destruct (doc !! j); reflexivity.
Qed.

Lemma highlighted_element_classes activeLink j e c :
  c ≠ "nav__link--active" →
  has_class c (highlighted_element activeLink j e) = has_class c e.
Proof.
  intros Hc. unfold highlighted_element. cbv zeta.
  destruct (has_class "nav__link" e), (bool_decide (activeLink = Some j));
    unfold has_class; simpl;
    rewrite ?contains_add_ne, ?contains_remove_ne by exact Hc; reflexivity.
Qed.

(** X12: for each of the four section names, which are the only values the
    manager passes, after [updateActiveNav] a [.nav__link] element is
    highlighted exactly when it is the first element of the document whose
    [data-section] attribute is that name; when there is none, no link is
    highlighted.  Ids, styles and every other class stay as they were. *)
Theorem X12_updateActiveNav_highlights_one_link section p j e' :
  section ∈ sections →
  document (updateActiveNav section p).2 !! j = Some e' →
  (has_class "nav__link" e' = true →
   has_class "nav__link--active" e'
   = bool_decide (find_index (by_attr "data-section" section) (document p) = Some j)) ∧
  (∃ e, document p !! j = Some e ∧ el_id e' = el_id e ∧ style e' = style e ∧
        ∀ c, c ≠ "nav__link--active" → has_class c e' = has_class c e).
Proof.
  intros _. rewrite updateActiveNav_eq. simpl. rewrite highlighted_lookup.
  destruct (document p !! j) as [e|] eqn:Hj; [|discriminate].
  intros [= <-]. split.
  - intros Hn. rewrite highlighted_element_classes in Hn by discriminate.
    unfold highlighted_element. cbv zeta. rewrite Hn.
    destruct (bool_decide _); unfold has_class; simpl;
      rewrite ?contains_add, ?contains_remove; reflexivity.
  - exists e. split; [reflexivity|]. split; [|split].
    + unfold highlighted_element. cbv zeta.
      destruct (has_class "nav__link" e), (bool_decide _); reflexivity.
    + unfold highlighted_element. cbv zeta.
      destruct (has_class "nav__link" e), (bool_decide _); reflexivity.
    + intros c Hc. apply highlighted_element_classes, Hc.
Qed.

Lemma X12_updateActiveNav_highlights_one_link_witness :
  has_class "nav__link--active" (link_el "home" []) = false ∧
  has_class "nav__link--active" (add_class "nav__link--active" (link_el "faq" [])) = true.
Proof.
  assert (Hin : "faq" ∈ sections) by (apply (bool_decide_unpack _); vm_compute; exact I).
  split.
  - apply (X12_updateActiveNav_highlights_one_link "faq"
             (construct sample_markup (fresh_entry "") [] []).2 0%nat
             (link_el "home" []) Hin eq_refl).
    reflexivity.
  - apply (X12_updateActiveNav_highlights_one_link "faq"
             (construct sample_markup (fresh_entry "") [] []).2 2%nat
             (add_class "nav__link--active" (link_el "faq" [])) Hin eq_refl).
    reflexivity.
Defined.

(** ** History *)

Lemma navigate_eq section p :
  includes section = true →
  navigateToSection section p
  = (Normal tt,
     set_document (highlighted section)
       (pushState (mkEntry (Some section) ("#" ++ section))
          (showSection section true p).2)).
Proof.
  intros Hin. unfold navigateToSection. rewrite Hin. unfold bind.
  destruct (showSection_frame section true p) as (p1 & -> & _).
  unfold updateURL, modify. rewrite updateActiveNav_eq.
  assert (section ≠ "") by (intros ->; discriminate Hin).
  rewrite bool_decide_eq_false_2 by assumption. reflexivity.
Qed.

(** X13: [navigateToSection] with a known section ends normally, makes it
    the current section, shows it and highlights its link, and pushes exactly
    one history entry, with state [{ section }] and fragment "#" followed by
    the section, behind which the former current entry now lies; the entries
    that were ahead are dropped. *)
Theorem X13_navigate_pushes_one_entry section p :
  section ∈ sections →
  ∃ p', navigateToSection section p = (Normal tt, p') ∧
        currentSection p' = section ∧
        current p' = mkEntry (Some section) ("#" ++ section) ∧
        past p' = current p :: past p ∧ future p' = [] ∧
        history_length p' = (length (past p) + 2)%nat ∧
        document p' = highlighted section (shown section true (document p)) ∧
        (is_Some (getElementById section (document p)) →
         active section (document p') = true).
Proof.
  intros Hin. rewrite navigate_eq by (apply bool_decide_eq_true_2, Hin).
  destruct (showSection_frame section true p) as (p1 & -> & Hd & Hc & Hp & Hcur & Hf).
  eexists. split; [reflexivity|]. simpl. rewrite Hc, Hp, Hcur, Hd.
  repeat split; auto.
  - unfold history_length. simpl. rewrite Hp. lia.
  - intros [i Hi].
    rewrite (active_same_marker _ _ _ (highlighted_same_marker section _)).
    apply (shown_activates _ _ _ i), Hi.
Qed.

Lemma X13_navigate_pushes_one_entry_witness :
  let p := (construct sample_markup (fresh_entry "") [] []).2 in
  ∃ p', navigateToSection "download" p = (Normal tt, p') ∧
        location_hash p' = "#download" ∧ history_length p' = 2%nat ∧
        active "download" (document p') = true.
Proof.
  intros p.
  destruct (X13_navigate_pushes_one_entry "download" p)
    as (p' & H & _ & Hcur & _ & _ & Hlen & _ & Hact).
  { apply (bool_decide_unpack _). vm_compute. exact I. }
  exists p'. split; [exact H|]. unfold location_hash. rewrite Hcur.
  split; [reflexivity|]. split; [exact Hlen|]. apply Hact. vm_compute. eauto.
Defined.

Lemma onPopState_frame st p :
  ∃ p', onPopState st p = (Normal tt, p') ∧
        past p' = past p ∧ current p' = current p ∧ future p' = future p ∧
        currentSection p'
        = match st with
          | Some section => if String.eqb section "" then currentSection p else section
          | None => currentSection p
          end ∧
        ∀ j, (λ e, has_class "nav__link--active" e) <$> document p' !! j
             = (λ e, has_class "nav__link--active" e) <$> document p !! j.
Proof.
  unfold onPopState. destruct st as [section|]; [destruct (String.eqb section "")|];
    simpl; try (eexists; split; [reflexivity|]; auto).
  destruct (showSection_frame section false p) as (p' & -> & Hd & Hc & Hp & Hcur & Hf).
  eexists. split; [reflexivity|]. repeat split; auto.
  intros j. rewrite Hd, shown_lookup. destruct (document p !! j) as [e|]; [|reflexivity].
  simpl. rewrite shown_element_classes by discriminate. reflexivity.
Qed.

(** X14: going back to an entry that [navigateToSection] pushed shows its
    section again: that section becomes current and active, the fragment is
    the entry's, the entry left lies ahead, no entry is added; the navigation
    highlighting is left as it was. *)
Theorem X14_back_restores_pushed_section p e behind prev i :
  past p = e :: behind → state e = Some prev → prev ≠ "" →
  getElementById prev (document p) = Some i →
  (back p).1 = Normal tt ∧
  currentSection (back p).2 = prev ∧
  active prev (document (back p).2) = true ∧
  location_hash (back p).2 = hash e ∧
  future (back p).2 = current p :: future p ∧
  history_length (back p).2 = history_length p ∧
  ∀ j, (λ e, has_class "nav__link--active" e) <$> document (back p).2 !! j
       = (λ e, has_class "nav__link--active" e) <$> document p !! j.
Proof.
  intros Hp Hst Hne Hi.
  destruct (back_to_pushed_entry p e behind prev i Hp Hst Hne Hi) as (Hc & Ha & Hh).
  pose proof (back_keeps_length p) as Hl.
  unfold back in *. rewrite Hp in *.
  destruct (onPopState_frame (state e)
              (mkPage (document p) (currentSection p) behind e (current p :: future p)
                      (timers p))) as (p' & Hq & _ & _ & Hf & _ & Hn).
  rewrite Hq in *. simpl in *. auto 10.
Qed.

Lemma X14_back_restores_pushed_section_witness :
  let p := (navigateToSection "download"
              (navigateToSection "faq"
                 (construct sample_markup (fresh_entry "") [] []).2).2).2 in
  currentSection (back p).2 = "faq" ∧ active "faq" (document (back p).2) = true ∧
  location_hash (back p).2 = "#faq" ∧ history_length (back p).2 = 3%nat.
Proof.
  intros p.
  destruct (X14_back_restores_pushed_section p (mkEntry (Some "faq") "#faq")
              [fresh_entry ""] "faq" 6%nat eq_refl eq_refl) as (_ & Hc & Ha & Hh & _ & Hl & _).
  - discriminate.
  - reflexivity.
  - rewrite Hc, Ha, Hh, Hl. repeat split; reflexivity.
Defined.

(** X15: back at the oldest entry and forward at the newest do nothing;
    back followed by forward returns to the entry one came from with the
    history as it was and, when that entry carries a section, with that
    section current.  Neither ever adds or drops an entry. *)
Theorem X15_back_then_forward_returns p :
  (past p = [] → back p = (Normal tt, p)) ∧
  (future p = [] → forward p = (Normal tt, p)) ∧
  (past p ≠ [] →
   past (forward (back p).2).2 = past p ∧
   current (forward (back p).2).2 = current p ∧
   future (forward (back p).2).2 = future p ∧
   ∀ section, state (current p) = Some section → section ≠ "" →
              currentSection (forward (back p).2).2 = section) ∧
  history_length (back p).2 = history_length p ∧
  history_length (forward p).2 = history_length p.
Proof.
  split; [|split; [|split; [|split]]].
  - intros H. unfold back. rewrite H. reflexivity.
  - intros H. unfold forward. rewrite H. reflexivity.
  - intros Hne. destruct (past p) as [|e behind] eqn:Hp; [congruence|].
    unfold back. rewrite Hp.
    destruct (onPopState_frame (state e)
                (mkPage (document p) (currentSection p) behind e (current p :: future p)
                        (timers p))) as (q & -> & Hqp & Hqc & Hqf & _).
    simpl in *. unfold forward. rewrite Hqf.
    destruct (onPopState_frame (state (current p))
                (mkPage (document q) (currentSection q) (current q :: past q)
                        (current p) (future p) (timers q)))
      as (q' & -> & Hp' & Hc' & Hf' & Hs' & _).
    simpl in *. rewrite Hp', Hc', Hf', Hqp, Hqc. repeat split.
    intros section Hst Hn. rewrite Hs', Hst.
    apply String.eqb_neq in Hn. rewrite Hn. reflexivity.
  - apply back_keeps_length.
  - unfold forward. destruct (future p) as [|e ahead] eqn:Hf; [reflexivity|].
    destruct (onPopState_frame (state e)
                (mkPage (document p) (currentSection p) (current p :: past p) e ahead
                        (timers p))) as (q & -> & Hqp & _ & Hqf & _).
    unfold history_length. simpl in *. rewrite Hqp, Hqf, Hf. simpl. lia.
Qed.

Lemma X15_back_then_forward_returns_witness :
  let p := (navigateToSection "download"
              (navigateToSection "faq"
                 (construct sample_markup (fresh_entry "") [] []).2).2).2 in
  current (forward (back p).2).2 = current p ∧
  currentSection (forward (back p).2).2 = "download".
Proof.
  intros p.
  destruct (X15_back_then_forward_returns p) as (_ & _ & H & _).
  destruct H as (_ & Hc & _ & Hs); [discriminate|].
  split; [exact Hc|]. apply Hs; [reflexivity | discriminate].
Defined.

(** ** Initial route *)

Lemma showSection_no_timer section p :
  timers (showSection section false p).2 = timers p.
Proof.
  unfold showSection, bind, modify. simpl.
  destruct (getElementById section _); reflexivity.
Qed.

(** X16: on a load whose fragment names a known section, the constructor
    ends normally with that section current, shown without animation (no
    timer is set) and highlighted, and active when an element has its id; the
    history is left as the browser gave it, the state of the current entry
    included. *)
Theorem X16_initial_route_shows_fragment doc entry behind ahead :
  substring_1 (hash entry) ∈ sections →
  ∃ p, construct doc entry behind ahead = (Normal tt, p) ∧
       currentSection p = substring_1 (hash entry) ∧
       past p = behind ∧ current p = entry ∧ future p = ahead ∧
       timers p = [] ∧
       document p = highlighted (substring_1 (hash entry))
                      (shown (substring_1 (hash entry)) false doc) ∧
       (is_Some (getElementById (substring_1 (hash entry)) doc) →
        active (substring_1 (hash entry)) (document p) = true).
Proof.
  intros Hin. unfold construct, handleInitialRoute, location_hash. cbn [current].
  set (section := substring_1 (hash entry)) in *.
  assert (Hinc : includes section = true) by (apply bool_decide_eq_true_2, Hin).
  assert (Hne : String.eqb section "" = false).
  { apply String.eqb_neq. intros H. rewrite H in Hinc. discriminate Hinc. }
  rewrite Hinc, Hne. cbn [negb andb]. unfold bind.
  pose proof (showSection_no_timer section (mkPage doc "home" behind entry ahead []))
    as Ht.
  destruct (showSection_frame section false (mkPage doc "home" behind entry ahead []))
    as (p1 & Hs & Hd & Hc & Hp & Hcur & Hf).
  rewrite Hs in *. rewrite updateActiveNav_eq.
  eexists. split; [reflexivity|]. simpl in *. rewrite Hd.
  repeat split; auto.
  intros [i Hi].
  rewrite (active_same_marker _ _ _ (highlighted_same_marker section _)).
  apply (shown_activates _ _ _ i), Hi.
Qed.

Lemma X16_initial_route_shows_fragment_witness :
  ∃ p, construct sample_markup (fresh_entry "#faq") [] [] = (Normal tt, p) ∧
       currentSection p = "faq" ∧ current p = fresh_entry "#faq" ∧
       active "faq" (document p) = true.
Proof.
  destruct (X16_initial_route_shows_fragment sample_markup (fresh_entry "#faq") [] [])
    as (p & H & Hc & _ & Hcur & _ & _ & _ & Ha).
  { apply (bool_decide_unpack _). vm_compute. exact I. }
  exists p. split; [exact H|]. split; [exact Hc|]. split; [exact Hcur|].
  apply Ha. vm_compute. eauto.
Defined.

(** ** The accordion and the transition *)

Lemma answer_closed x a h :
  answer (close_item x) = Some (a, h) → style a !! "maxHeight" = Some "0".
Proof.
  unfold close_item. simpl. destruct (answer x) as [[a0 h0]|]; [|discriminate].
  simpl. intros [= <- <-]. apply lookup_insert_eq.
Qed.

Lemma answer_opened x a h :
  answer (open_item x) = Some (a, h) → style a !! "maxHeight" = Some (pretty h ++ "px").
Proof.
  unfold open_item. simpl. destruct (answer x) as [[a0 h0]|]; [|discriminate].
  simpl. intros [= <- <-]. apply lookup_insert_eq.
Qed.

(** X17: after a click on a question that has a listener, an item is open
    exactly when it is the clicked one and that one was closed before; the
    answer of an open item has its max-height set to its scroll height in
    pixels and every other answer has max-height "0". *)
Theorem X17_answer_heights_follow_open_state faqItems i it j it' :
  faqItems !! i = Some it → bound it = true →
  onQuestionClick i faqItems !! j = Some it' →
  is_open it' = negb (is_open it) && bool_decide (j = i) ∧
  ∀ a h, answer it' = Some (a, h) →
         style a !! "maxHeight" = Some (if is_open it' then pretty h ++ "px" else "0").
Proof.
  intros Hi Hb. unfold onQuestionClick. rewrite Hi, Hb.
  destruct (is_open it); cbn [negb andb].
  - rewrite list_lookup_fmap. destruct (faqItems !! j) as [x|]; [|discriminate].
    intros [= <-]. rewrite is_open_close. split; [reflexivity|]. apply answer_closed.
  - rewrite list_lookup_alter. case_decide as Hij.
    + subst j. rewrite list_lookup_fmap, Hi. simpl. intros [= <-].
      rewrite is_open_open, bool_decide_eq_true_2 by reflexivity.
      split; [reflexivity|]. apply answer_opened.
    + rewrite list_lookup_fmap. destruct (faqItems !! j) as [x|]; [|discriminate].
      intros [= <-]. rewrite is_open_close, bool_decide_eq_false_2 by congruence.
      split; [reflexivity|]. apply answer_closed.
Qed.

Lemma X17_answer_heights_follow_open_state_witness :
  ∃ it', onQuestionClick 2 sample_faq !! 2%nat = Some it' ∧ is_open it' = true ∧
         ∀ a h, answer it' = Some (a, h) → style a !! "maxHeight" = Some "64px".
Proof.
  eexists. split; [reflexivity|].
  destruct (X17_answer_heights_follow_open_state sample_faq 2%nat _ 2%nat _
              eq_refl eq_refl eq_refl) as [Ho Hh].
  split; [exact Ho|]. intros a h Ha. rewrite (Hh a h Ha). simpl in Ha.
  injection Ha as <- <-. reflexivity.
Defined.

(** The inline style of an element after an animated [showSection]. *)
Lemma shown_element_faded target j e :
  has_class "section" e = true →
  style (shown_element true target j e) !! "opacity" = Some "0" ∧
  style (shown_element true target j e) !! "transform" = Some "translateY(20px)".
Proof.
  intros Hs. unfold shown_element. cbv zeta. rewrite Hs.
  destruct (bool_decide (target = Some j)); simpl;
    (split; [rewrite lookup_insert_ne by discriminate|]; apply lookup_insert_eq).
Qed.

Lemma highlighted_element_style t j x : style (highlighted_element t j x) = style x.
Proof.
  unfold highlighted_element. cbv zeta.
  destruct (has_class "nav__link" x), (bool_decide _); reflexivity.
Qed.

(** X18: an animated navigation to a section whose element exists fades
    every [.section] element out, the target included (opacity "0", transform
    "translateY(20px)"), leaves the marker on the target alone and sets one
    timer of 100 ms.  When that timer fires the target is set to opacity "1"
    and transform "translateY(0)" and keeps the marker; every other
    [.section] element stays faded and unmarked. *)
Theorem X18_target_appears_when_its_timer_fires section p i :
  section ∈ sections →
  getElementById section (document p) = Some i →
  let p1 := (navigateToSection section p).2 in
  let p2 := (run_timer (Reveal i) p1).2 in
  timers p1 = (timers p ++ [(100, Reveal i)])%list ∧
  (∀ j e1, document p1 !! j = Some e1 → has_class "section" e1 = true →
     style e1 !! "opacity" = Some "0" ∧
     style e1 !! "transform" = Some "translateY(20px)" ∧
     has_class "section--active" e1 = bool_decide (j = i)) ∧
  (∀ j e2, document p2 !! j = Some e2 → has_class "section" e2 = true → j ≠ i →
     style e2 !! "opacity" = Some "0" ∧
     style e2 !! "transform" = Some "translateY(20px)" ∧
     has_class "section--active" e2 = false) ∧
  (∃ e2, document p2 !! i = Some e2 ∧
         style e2 !! "opacity" = Some "1" ∧
         style e2 !! "transform" = Some "translateY(0)" ∧
         has_class "section--active" e2 = true).
Proof.
  intros Hin Hi p1 p2. subst p2 p1.
  rewrite navigate_eq by (apply bool_decide_eq_true_2, Hin).
  assert (Ht : timers (showSection section true p).2
               = (timers p ++ [(100, Reveal i)])%list).
  { unfold showSection, bind, modify. simpl.
    assert (Hsame : getElementById section
              (for_each (has_class "section")
                 (λ s, set_style "transform" "translateY(20px)"
                         (set_style "opacity" "0" (remove_class "section--active" s)))
                 (document p)) = Some i).
    { unfold getElementById in *. destruct (bool_decide (section = "")); [discriminate|].
      unfold for_each. rewrite find_index_fmap; [exact Hi|].
      intros x. destruct (has_class "section" x); reflexivity. }
    rewrite Hsame. reflexivity. }
  destruct (showSection_frame section true p) as (q & Hq & Hd & _).
  rewrite Hq in *. cbn [snd] in *.
  assert (Hlook : ∀ j, highlighted section (document q) !! j
                  = (λ e, highlighted_element
                            (find_index (by_attr "data-section" section) (document q)) j
                            (shown_element true (Some i) j e)) <$> document p !! j).
  { intros j. rewrite highlighted_lookup, Hd, shown_lookup, Hi.
    destruct (document p !! j); reflexivity. }
  assert (Hfaded : ∀ j e1, highlighted section (document q) !! j = Some e1 →
            has_class "section" e1 = true →
            style e1 !! "opacity" = Some "0" ∧
            style e1 !! "transform" = Some "translateY(20px)" ∧
            has_class "section--active" e1 = bool_decide (j = i)).
  { intros j e1. rewrite Hlook. destruct (document p !! j) as [e|]; [|discriminate].
    intros [= <-] Hs.
    rewrite highlighted_element_classes, shown_element_classes in Hs by discriminate.
    rewrite highlighted_element_style.
    destruct (shown_element_faded (Some i) j e Hs) as [Ho Htr].
    split; [exact Ho|]. split; [exact Htr|].
    rewrite highlighted_element_classes by discriminate.
    rewrite (shown_element_marker _ _ _ _ Hs).
    apply bool_decide_ext. split; [intros [= ->] | intros ->]; reflexivity. }
  split; [exact Ht|]. split; [exact Hfaded|]. split.
  - intros j e2 Hj Hs Hne. unfold run_timer, modify in Hj.
    cbn [snd document set_document pushState] in Hj.
    rewrite list_lookup_alter_ne in Hj by congruence.
    destruct (Hfaded j e2 Hj Hs) as (Ho & Htr & Hm).
    rewrite bool_decide_eq_false_2 in Hm by exact Hne. auto.
  - destruct (find_index_lookup (by_id section) (document p) i) as (e & He & _).
    { unfold getElementById in Hi. destruct (bool_decide (section = "")); [discriminate|].
      exact Hi. }
    unfold run_timer, modify. cbn [snd document set_document pushState].
    rewrite list_lookup_alter_eq, Hlook, He. eexists. split; [reflexivity|].
    split; [|split].
    + simpl. rewrite lookup_insert_ne by discriminate. apply lookup_insert_eq.
    + simpl. apply lookup_insert_eq.
    + change (has_class "section--active"
                (highlighted_element
                   (find_index (by_attr "data-section" section) (document q)) i
                   (shown_element true (Some i) i e)) = true).
      rewrite highlighted_element_classes by discriminate.
      unfold shown_element. cbv zeta.
      rewrite bool_decide_eq_true_2 by reflexivity.
      unfold has_class. simpl. apply contains_add.
Qed.

Lemma X18_target_appears_when_its_timer_fires_witness :
  let p := (construct sample_markup (fresh_entry "") [] []).2 in
  timers (navigateToSection "faq" p).2 = [(100, Reveal 6)] ∧
  (∃ e2, document (run_timer (Reveal 6) (navigateToSection "faq" p).2).2 !! 6%nat
         = Some e2 ∧
         style e2 !! "opacity" = Some "1" ∧
         style e2 !! "transform" = Some "translateY(0)" ∧
         has_class "section--active" e2 = true).
Proof.
  intros p.
  destruct (X18_target_appears_when_its_timer_fires "faq" p 6%nat) as (Ht & _ & _ & Hr).
  - apply (bool_decide_unpack _). vm_compute. exact I.
  - reflexivity.
  - split; [exact Ht | exact Hr].
Defined.

End SpaMore.

(** * More about the navigation manager *)

Module NavigationMore.
Import Js Eff Dom DomFacts Navigation NavigationFacts.
Local Open Scope eff_scope.

Lemma add_present c cl : contains c cl = true → add c cl = cl.
Proof. intros H. unfold add. rewrite H. reflexivity. Qed.

Lemma remove_absent c cl : contains c cl = false → remove c cl = cl.
Proof.
  unfold contains, remove. intros H. apply bool_decide_eq_false in H.
  induction cl as [|x cl IH]; [reflexivity|].
  rewrite not_elem_of_cons in H. destruct H as [Hx Hcl].
  rewrite filter_cons_True by congruence. rewrite IH by exact Hcl. reflexivity.
Qed.

Lemma close_class_twice n :
  remove_class "nav--open" (add_class "hidden"
    (remove_class "nav--open" (add_class "hidden" n)))
  = remove_class "nav--open" (add_class "hidden" n).
Proof.
  unfold remove_class, add_class. simpl. f_equal.
  rewrite (add_present "hidden")
    by (rewrite contains_remove_ne by discriminate; apply contains_add).
  apply remove_absent, contains_remove.
Qed.

Lemma remove_class_twice c t : remove_class c (remove_class c t) = remove_class c t.
Proof.
  unfold remove_class. simpl. f_equal. apply remove_absent, contains_remove.
Qed.

(** ** The listeners *)

(** X19: the document-level click listener closes the panel only for a
    click outside both the panel and the toggle while the panel is open; a
    click inside either leaves everything as it is, so the click that opened
    the panel through the toggle does not close it again when it reaches the
    document. *)
Theorem X19_only_outside_clicks_close s in_nav in_toggle :
  (in_nav || in_toggle = true → (onDocumentClick in_nav in_toggle s).2 = s) ∧
  (isNavOpen s = false → onDocumentClick in_nav in_toggle s = (Normal tt, s)) ∧
  (isNavOpen s = true → is_Some (navToggle s) → is_Some (nav s) →
   onDocumentClick false false s = closeNavigation s) ∧
  (onDocumentClick in_nav true (onToggleClick s).2).2 = (onToggleClick s).2.
Proof.
  assert (Hin : ∀ s a b, a || b = true → (onDocumentClick a b s).2 = s).
  { clear. intros [t n o v h z sc] a b Hab. unfold onDocumentClick. simpl.
    destruct o; [|reflexivity]. unfold bind, on_nav, on_navToggle. simpl.
    destruct n as [n|]; [|reflexivity]. simpl.
    destruct a; simpl; [reflexivity|]. simpl in Hab. subst b.
    destruct t as [t|]; reflexivity. }
  split; [apply Hin|]. split; [|split].
  - intros Hc. unfold onDocumentClick. rewrite Hc. reflexivity.
  - intros Ho [t Ht] [n Hn]. unfold onDocumentClick. rewrite Ho.
    destruct s as [t' n' o v h z sc]. simpl in *. subst. reflexivity.
  - apply Hin, orb_true_r.
Qed.

Lemma X19_only_outside_clicks_close_witness :
  isNavOpen (onDocumentClick false true (onToggleClick sample_nav).2).2 = true ∧
  isNavOpen (onDocumentClick false false (onToggleClick sample_nav).2).2 = false.
Proof.
  destruct (X19_only_outside_clicks_close (onToggleClick sample_nav).2 false false)
    as (_ & _ & Hout & _).
  destruct (X19_only_outside_clicks_close sample_nav false true) as (_ & _ & _ & Htog).
  split.
  - rewrite Htog. reflexivity.
  - rewrite Hout; [reflexivity | reflexivity | eexists; reflexivity | eexists; reflexivity].
Defined.

(** X20: while the panel is open and both elements exist, the Escape key, a
    resize to 768 px or wider and a click on an in-page anchor whose target
    exists each run [closeNavigation]; the anchor click also scrolls to its
    target.  Any other key, a resize below 768 px and an anchor whose target
    is missing change nothing, and on a closed panel none of the listeners
    but the toggle changes the navigation state. *)
Theorem X20_close_triggers s :
  (isNavOpen s = true →
   onKeyDown "Escape" s = closeNavigation s ∧
   (∀ width, (768 ≤ width)%Z → onResize width s = closeNavigation s) ∧
   (∀ targetId,
      nav_state (onAnchorClick targetId true s).2 = nav_state (closeNavigation s).2 ∧
      ((closeNavigation s).1 = Normal tt →
       scrolledTo (onAnchorClick targetId true s).2 = (scrolledTo s ++ [targetId])%list))) ∧
  (∀ key, key ≠ "Escape" → onKeyDown key s = (Normal tt, s)) ∧
  (∀ width, (width < 768)%Z → onResize width s = (Normal tt, s)) ∧
  (∀ targetId, onAnchorClick targetId false s = (Normal tt, s)) ∧
  (isNavOpen s = false →
   ∀ l, l ≠ ToggleClick → nav_state (listen l s).2 = nav_state s).
Proof.
  split; [|split; [|split; [|split]]].
  - intros Ho. split; [|split].
    + unfold onKeyDown. rewrite Ho. reflexivity.
    + intros width Hw. unfold onResize. rewrite Ho.
      rewrite (proj2 (Z.leb_le 768 width) Hw). reflexivity.
    + intros targetId. unfold onAnchorClick, bind, modify. rewrite Ho.
      rewrite closeNavigation_eq.
      destruct (navToggle s), (nav s); simpl; split; auto; discriminate.
  - intros key Hk. unfold onKeyDown.
    rewrite (proj2 (String.eqb_neq key "Escape") Hk). reflexivity.
  - intros width Hw. unfold onResize.
    rewrite (proj2 (Z.leb_gt 768 width) Hw). reflexivity.
  - reflexivity.
  - intros Hc l Hl.
    destruct l as [|in_nav in_toggle|key|innerWidth|targetId found|scrollTop]; simpl.
    + congruence.
    + unfold onDocumentClick. rewrite Hc. reflexivity.
    + unfold onKeyDown. rewrite Hc, andb_false_r. reflexivity.
    + unfold onResize. rewrite Hc, andb_false_r. reflexivity.
    + unfold onAnchorClick, bind, modify. destruct found; [|reflexivity].
      rewrite Hc. reflexivity.
    + unfold onScroll, bind, modify. simpl. destruct (_ && _); reflexivity.
Qed.

Lemma X20_close_triggers_witness :
  isNavOpen (onKeyDown "Escape" (openNavigation sample_nav).2).2 = false ∧
  isNavOpen (onResize 768 (openNavigation sample_nav).2).2 = false ∧
  isNavOpen (onResize 767 (openNavigation sample_nav).2).2 = true ∧
  isNavOpen (onKeyDown "Enter" (openNavigation sample_nav).2).2 = true.
Proof.
  destruct (X20_close_triggers (openNavigation sample_nav).2)
    as (Hopen & Hkey & Hsmall & _).
  destruct (Hopen eq_refl) as (Hesc & Hres & _).
  split; [rewrite Hesc; reflexivity|].
  split; [rewrite (Hres 768%Z) by lia; reflexivity|].
  split; [rewrite (Hsmall 767%Z) by lia; reflexivity|].
  rewrite (Hkey "Enter") by discriminate. reflexivity.
Defined.

(** X21: opening and then closing leaves the flag false, the inline
    overflow of the body empty (whatever it was before), the toggle without
    "active" and the panel with "hidden" and without "nav--open", and every
    other class of both elements as it was; closing once more changes
    nothing. *)
Theorem X21_open_then_close s t n :
  navToggle s = Some t → nav s = Some n →
  let closed := (closeNavigation (openNavigation s).2).2 in
  (closeNavigation (openNavigation s).2).1 = Normal tt ∧
  isNavOpen closed = false ∧ body_overflow closed = "" ∧
  (∃ t' n', navToggle closed = Some t' ∧ nav closed = Some n' ∧
            has_class "active" t' = false ∧
            has_class "hidden" n' = true ∧ has_class "nav--open" n' = false ∧
            (∀ c, c ≠ "active" → has_class c t' = has_class c t) ∧
            (∀ c, c ≠ "hidden" → c ≠ "nav--open" → has_class c n' = has_class c n)) ∧
  closeNavigation closed = (Normal tt, closed).
Proof.
  intros Ht Hn. cbv zeta.
  rewrite openNavigation_eq, Ht, Hn. cbn [snd].
  rewrite closeNavigation_eq. cbn [navToggle nav fst snd isNavOpen body_overflow].
  split; [reflexivity|]. split; [reflexivity|]. split; [reflexivity|]. split.
  - do 2 eexists. split; [reflexivity|]. split; [reflexivity|].
    unfold has_class. simpl. split; [|split; [|split; [|split]]].
    + apply contains_remove.
    + rewrite contains_remove_ne by discriminate. apply contains_add.
    + apply contains_remove.
    + intros c Hc. rewrite contains_remove_ne, contains_add_ne by exact Hc. reflexivity.
    + intros c Hh Ho.
      rewrite contains_remove_ne, contains_add_ne, contains_add_ne, contains_remove_ne
        by assumption. reflexivity.
  - rewrite closeNavigation_eq. cbn [navToggle nav header lastScrollTop scrolledTo].
    rewrite remove_class_twice, close_class_twice. reflexivity.
Qed.

Lemma X21_open_then_close_witness :
  isNavOpen (closeNavigation (openNavigation sample_nav).2).2 = false ∧
  body_overflow (closeNavigation (openNavigation sample_nav).2).2 = "".
Proof.
  destruct (X21_open_then_close sample_nav _ _ eq_refl eq_refl) as (_ & Ho & Hb & _).
  split; [exact Ho | exact Hb].
Defined.

(** X22: after a scroll event the header, when there is one, carries
    "header--scrolled" exactly when the offset is above 50 and
    "header--hidden" exactly when the offset is above both the previous one
    and 100, so that any scroll upwards shows it again; the offset is
    remembered, the other classes and the navigation state are untouched, and
    without a header only the offset is recorded. *)
Theorem X22_header_follows_scroll s scrollTop :
  (onScroll scrollTop s).1 = Normal tt ∧
  lastScrollTop (onScroll scrollTop s).2 = scrollTop ∧
  nav_state (onScroll scrollTop s).2 = nav_state s ∧
  (header s = None → header (onScroll scrollTop s).2 = None) ∧
  (∀ h, header s = Some h →
     ∃ h', header (onScroll scrollTop s).2 = Some h' ∧
           has_class "header--scrolled" h' = (50 <? scrollTop)%Z ∧
           has_class "header--hidden" h'
           = ((lastScrollTop s <? scrollTop)%Z && (100 <? scrollTop)%Z) ∧
           ((scrollTop ≤ lastScrollTop s)%Z → has_class "header--hidden" h' = false) ∧
           ∀ c, c ≠ "header--scrolled" → c ≠ "header--hidden" →
                has_class c h' = has_class c h).
Proof.
  unfold onScroll, bind, modify. simpl.
  destruct ((lastScrollTop s <? scrollTop)%Z && (100 <? scrollTop)%Z) eqn:Hhid;
    simpl; (split; [reflexivity|]); (split; [reflexivity|]); (split; [reflexivity|]);
    (split; [intros ->; reflexivity|]); intros h ->; simpl;
    eexists; (split; [reflexivity|]); unfold has_class;
    destruct (50 <? scrollTop)%Z eqn:Hsc; simpl;
    rewrite ?contains_add, ?contains_remove,
      ?(contains_add_ne "header--scrolled" "header--hidden"),
      ?(contains_remove_ne "header--scrolled" "header--hidden"),
      ?contains_add, ?contains_remove by discriminate;
    (split; [reflexivity|]); (split; [reflexivity|]);
    (split; [intros Hup; try reflexivity;
             apply andb_true_iff in Hhid as [Hlt _]; apply Z.ltb_lt in Hlt; lia|]);
    intros c Hc1 Hc2;
    repeat first [rewrite contains_add_ne by assumption
                 | rewrite contains_remove_ne by assumption];
    reflexivity.
Qed.

Lemma X22_header_follows_scroll_witness :
  let s := (onScroll 300 sample_nav).2 in
  ∃ h', header (onScroll 120 s).2 = Some h' ∧
        has_class "header--scrolled" h' = true ∧ has_class "header--hidden" h' = false.
Proof.
  intros s.
  destruct (X22_header_follows_scroll s 120) as (_ & _ & _ & _ & H).
  destruct (H _ eq_refl) as (h' & Hh & Hs & _ & Hup & _).
  exists h'. split; [exact Hh|]. split; [exact Hs|]. apply Hup. vm_compute. discriminate.
Defined.

End NavigationMore.
